(** * Clip planning, prompt propagation and mask reassembly
      (Endoscapes2023_Pipeline/inference.py)

    A shallow embedding of the pipeline's control logic.  Python values are
    modelled as follows.
    - [int] is [Z]; list lengths are [Z.of_nat (length _)].
    - a [dict] with integer keys is an association list in insertion order
      (Python dicts iterate in insertion order and keep the position of a
      key that is assigned again);
    - a [set] of category ids is a [gset Z];
    - a raised exception is the [Raise] branch of [result];
    - module-level globals ([OBJ_COUNT], [PROMPT_INFO]) are passed explicitly;
    - numpy masks are lists of booleans: a [mask2] is an image taken as
      the one-dimensional array of its pixels, so that its shape is its
      pixel count, and a [mask3] is the array of the C channels of such an
      image; combining two arrays of different shapes raises, as numpy
      does;
    - the geometry helpers of [utils], pycocotools' RLE codec and the SAM2
      predictor are interfaces ([Utils], [Sam2]). *)

From Stdlib Require Import ZArith List String Lia Bool DecimalString Sorted.
From Stdlib Require Import Permutation.
From stdpp Require Import base gmap sets.
Import ListNotations.
Open Scope Z_scope.

(** ** Python runtime *)

Module Py.

Inductive exn : Type :=
  | TypeError | KeyError | ValueError | IndexError | UnboundLocalError.

Inductive result (A : Type) : Type :=
  | Ok (a : A)
  | Raise (e : exn).
Arguments Ok {A} a.
Arguments Raise {A} e.

Definition bind {A B : Type} (m : result A) (k : A -> result B) : result B :=
  match m with
  | Ok a => k a
  | Raise e => Raise e
  end.

(** [d[k]] for a key that may be missing. *)
Definition dict (V : Type) : Type := list (Z * V).

Fixpoint dict_get {V : Type} (k : Z) (d : dict V) : option V :=
  match d with
  | [] => None
  | (k', v) :: d' => if k' =? k then Some v else dict_get k d'
  end.

(** [d[k] = v]: an existing key keeps its position, a new key goes last. *)
Fixpoint dict_set {V : Type} (k : Z) (v : V) (d : dict V) : dict V :=
  match d with
  | [] => [(k, v)]
  | (k', v') :: d' =>
      if k' =? k then (k, v) :: d' else (k', v') :: dict_set k v d'
  end.

Definition keys {V : Type} (d : dict V) : list Z := map fst d.

(** [d.update(other)] *)
Definition dict_update {V : Type} (d other : dict V) : dict V :=
  fold_left (fun acc kv => dict_set (fst kv) (snd kv) acc) other d.

Definition subscript {V : Type} (d : dict V) (k : Z) : result V :=
  match dict_get k d with
  | Some v => Ok v
  | None => Raise KeyError
  end.

(** [l[i]] on a list: negative indices count from the end. *)
Definition index {A : Type} (l : list A) (i : Z) : result A :=
  let len := Z.of_nat (length l) in
  let j := if i <? 0 then i + len else i in
  if (0 <=? j) && (j <? len) then
    match nth_error l (Z.to_nat j) with
    | Some x => Ok x
    | None => Raise IndexError
    end
  else Raise IndexError.

(** [l[lo:hi]] *)
Definition clamp (len i : Z) : Z :=
  if i <? 0 then Z.max 0 (i + len) else Z.min i len.

Definition slice {A : Type} (l : list A) (lo hi : Z) : list A :=
  let len := Z.of_nat (length l) in
  let a := clamp len lo in
  let b := clamp len hi in
  firstn (Z.to_nat (b - a)) (skipn (Z.to_nat a) l).

(** [range(0, stop, step)] *)
Definition range_len (stop step : Z) : Z :=
  if 0 <? step then (if 0 <? stop then (stop - 1) / step + 1 else 0)
  else (if stop <? 0 then (- stop - 1) / (- step) + 1 else 0).

Definition range0 (stop step : Z) : result (list Z) :=
  if step =? 0 then Raise ValueError
  else Ok (map (fun k => Z.of_nat k * step)
               (seq 0 (Z.to_nat (range_len stop step)))).

(** [str(n)] for an int *)
Definition str (n : Z) : string := NilZero.string_of_int (Z.to_int n).

End Py.

Import Py.

Notation "x <- m ;; k" := (Py.bind m (fun x => k))
  (at level 100, m at next level, right associativity).

(** ** numpy boolean masks *)

Definition mask2 : Type := list bool.
Definition mask3 : Type := list mask2.

(** An array is given by its pixels: the shape of a [mask2] is its pixel
    count [(n,)], and a [mask3] is the array [(C, n)] of its [C] channels,
    which all have [n] pixels ([[]] being the array of shape [(0, 0)]). *)

(** The pixelwise OR of two channels of one array.  On channels of one
    length, the only ones an array has, it is the OR at every pixel; the
    cases of a shorter operand make the empty channel its unit. *)
Fixpoint or_pixels (a b : mask2) : mask2 :=
  match a, b with
  | x :: a', y :: b' => (x || y) :: or_pixels a' b'
  | [], _ => b
  | _, [] => a
  end.

(** [np.logical_or(a, b)]: pixelwise on two arrays of one shape; a
    one-pixel array is broadcast over the other; any other pair of shapes
    raises [ValueError] (operands could not be broadcast together). *)
Definition logical_or (a b : mask2) : result mask2 :=
  if Nat.eqb (length a) (length b) then Ok (or_pixels a b)
  else if Nat.eqb (length a) 1 then Ok (map (orb (hd false a)) b)
  else if Nat.eqb (length b) 1 then Ok (map (fun x => x || hd false b) a)
  else Raise ValueError.

(** [np.logical_or.reduce(m, axis=0)]: the OR of the channels of one
    array, all-False for an array without channels. *)
Definition logical_or_reduce (m : mask3) : mask2 :=
  fold_left or_pixels m [].

(** [m.sum()] *)
Definition sum2 (m : mask2) : Z := Z.of_nat (length (List.filter id m)).
Definition sum3 (m : mask3) : Z := fold_right Z.add 0 (map sum2 m).

(** [np.squeeze(m, axis=0)]: axis 0 must have size one. *)
Definition squeeze0 (m : mask3) : result mask2 :=
  match m with
  | [c] => Ok c
  | _ => Raise ValueError
  end.

(** ** External collaborators *)

(** [utils] (geometry) and [pycocotools.mask]. *)
Class Utils : Type := {
  RLE : Type;
  BBox : Type;
  Points : Type;
  maskUtils_decode : RLE -> mask2;
  maskUtils_encode : mask2 -> RLE;
  mask_to_masks : mask2 -> list mask2;
  mask_to_bbox : mask2 -> BBox;
  (** second argument: [num_points]; [None] is the helper's own default *)
  mask_to_points : mask2 -> option Z -> Points
}.

(** ** Data model *)

Record Frame : Type := {
  id : Z;
  video_id : Z;
  order_in_video : Z;
  is_det_keyframe : bool;
  path : string
}.

Record ClipRange : Type := {
  start_idx : Z;
  end_idx : Z
}.

Section DataModel.
Context {U : Utils}.

Record Ann : Type := {
  image_id : Z;
  category_id : Z;
  segmentation : RLE
}.

(** The part of the COCO handle that the pipeline reads. *)
Record Coco : Type := {
  imgs : list Frame;
  anns : list Ann;
  cats : list Z
}.

Record PromptObject : Type := {
  po_mask : mask2;
  po_bbox : BBox;
  po_points : Points;
  obj_id : Z
}.

Record PromptInfo : Type := {
  prompt_objs : list PromptObject;
  frame_idx : Z;
  prompt_type : string;
  pi_video_id : string;
  pi_path : string
}.

(** [COCO_INFO.loadAnns(COCO_INFO.getAnnIds(imgIds=i))] *)
Definition loadAnns (COCO_INFO : Coco) (i : Z) : list Ann :=
  List.filter (fun a => image_id a =? i) (anns COCO_INFO).

(** [get_dicts_by_field_value(get_imgs(COCO_INFO), "video_id", v)] *)
Definition get_dicts_by_field_value (data : list Frame) (target_value : Z)
  : list Frame :=
  List.filter (fun item => video_id item =? target_value) data.

(** *** Clip Planner: prompt frame *)

Definition in_range (clip_range : ClipRange) (f : Frame) : bool :=
  negb ((order_in_video f <? start_idx clip_range)
        || (order_in_video f >? end_idx clip_range)).

Definition has_anns (COCO_INFO : Coco) (f : Frame) : bool :=
  match loadAnns COCO_INFO (id f) with
  | [] => false
  | _ :: _ => true
  end.

Fixpoint find_prompt_frame (COCO_INFO : Coco) (frames : list Frame)
    (clip_range : ClipRange) : option Frame :=
  match frames with
  | [] => None
  | frame :: rest =>
      if negb (is_det_keyframe frame) then
        find_prompt_frame COCO_INFO rest clip_range
      else if (order_in_video frame <? start_idx clip_range)
              || (order_in_video frame >? end_idx clip_range) then
        find_prompt_frame COCO_INFO rest clip_range
      else if negb (has_anns COCO_INFO frame) then
        find_prompt_frame COCO_INFO rest clip_range
      else Some frame
  end.

(** *** Object Identity Encoder *)

Definition num_cat (COCO_INFO : Coco) : Z := Z.of_nat (length (cats COCO_INFO)).

(** [OBJ_COUNT * (num_cat + 1) + ann["category_id"]] *)
Definition encode (n_cat OBJ_COUNT cat : Z) : Z := OBJ_COUNT * (n_cat + 1) + cat.

(** [key % (num_cat + 1)] *)
Definition decode (n_cat key : Z) : Z := key mod (n_cat + 1).

(** The inner loop of [get_each_obj]: one object per sub-mask, the counter
    advancing once per object. *)
Fixpoint objs_of_masks (n_cat cat : Z) (num_points : Z) (masks : list mask2)
    (OBJ_COUNT : Z) : list PromptObject * Z :=
  match masks with
  | [] => ([], OBJ_COUNT)
  | mask :: rest =>
      let obj := {| po_mask := mask;
                    po_bbox := mask_to_bbox mask;
                    po_points := mask_to_points mask (Some num_points);
                    obj_id := encode n_cat OBJ_COUNT cat |} in
      let '(objs, c) := objs_of_masks n_cat cat num_points rest (OBJ_COUNT + 1) in
      (obj :: objs, c)
  end.

Fixpoint objs_of_anns (n_cat : Z) (num_points : Z) (filter_cats : option (gset Z))
    (l : list Ann) (OBJ_COUNT : Z) : list PromptObject * Z :=
  match l with
  | [] => ([], OBJ_COUNT)
  | ann :: rest =>
      let skip := match filter_cats with
                  | Some cs => negb (bool_decide (category_id ann ∈ cs))
                  | None => false
                  end in
      if skip then objs_of_anns n_cat num_points filter_cats rest OBJ_COUNT
      else
        let masks := mask_to_masks (maskUtils_decode (segmentation ann)) in
        let '(objs, c) :=
          objs_of_masks n_cat (category_id ann) num_points masks OBJ_COUNT in
        let '(objs', c') := objs_of_anns n_cat num_points filter_cats rest c in
        (objs ++ objs', c')
  end.

(** [get_each_obj(prompt_frame, num_points, cats)], returning the objects and
    the new value of the global [OBJ_COUNT]. *)
Definition get_each_obj (COCO_INFO : Coco) (prompt_frame : Frame)
    (num_points : Z) (filter_cats : option (gset Z)) (OBJ_COUNT : Z)
  : list PromptObject * Z :=
  objs_of_anns (num_cat COCO_INFO) num_points filter_cats
    (loadAnns COCO_INFO (id prompt_frame)) OBJ_COUNT.

(** [PromptInfo(prompt_objs=objs, frame_idx=frame["order_in_video"],
    prompt_type=ptype, video_id=str(frame["video_id"]), path=frame["path"])],
    as both planners build it. *)
Definition prompt_info_at (frame : Frame) (objs : list PromptObject)
    (ptype : string) : PromptInfo :=
  {| prompt_objs := objs;
     frame_idx := order_in_video frame;
     prompt_type := ptype;
     pi_video_id := str (video_id frame);
     pi_path := path frame |}.

(** *** Clip Planner: fixed-length mode *)

(** What one turn of the generator's loop does: a yielded pair, or the
    warning of a skipped clip. *)
Inductive planner_event : Type :=
  | Yielded (clip_prompts : list PromptInfo) (clip_range : ClipRange)
  | Warned (clip_range : ClipRange) (vid : Z).

(** The clip range of the loop turn that starts at [s]. *)
Definition clip_range_at (n clip_length s : Z) : ClipRange :=
  {| start_idx := s; end_idx := Z.min (s + clip_length - 1) (n - 1) |}.

Definition clip_ranges (n clip_length : Z) : result (list ClipRange) :=
  starts <- range0 n clip_length ;;
  Ok (map (clip_range_at n clip_length) starts).

Fixpoint plan_clips (COCO_INFO : Coco) (frames : list Frame) (ptype : string)
    (ranges : list ClipRange) (OBJ_COUNT : Z) : list planner_event * Z :=
  match ranges with
  | [] => ([], OBJ_COUNT)
  | clip_range :: rest =>
      match find_prompt_frame COCO_INFO frames clip_range with
      | None =>
          (* frames[0]['video_id']: the loop only runs on a non-empty list *)
          let vid := match frames with f0 :: _ => video_id f0 | [] => 0 end in
          let '(evs, c) := plan_clips COCO_INFO frames ptype rest OBJ_COUNT in
          (Warned clip_range vid :: evs, c)
      | Some prompt_frame =>
          let '(objs, c) := get_each_obj COCO_INFO prompt_frame 1 None OBJ_COUNT in
          let info := prompt_info_at prompt_frame objs ptype in
          let '(evs, c') := plan_clips COCO_INFO frames ptype rest c in
          (Yielded [info] clip_range :: evs, c')
      end
  end.

(** [get_clip_prompts(frames, prompt_type, clip_length)], run to exhaustion.
    The generator only shares [OBJ_COUNT] with its consumer, which does not
    touch it while the generator is live, so the lazy and the eager runs
    agree. *)
Definition get_clip_prompts (COCO_INFO : Coco) (frames : list Frame)
    (ptype : string) (clip_length : option Z) (OBJ_COUNT : Z)
  : result (list planner_event * Z) :=
  let n := Z.of_nat (length frames) in
  let clip_length := match clip_length with Some l => l | None => n end in
  ranges <- clip_ranges n clip_length ;;
  Ok (plan_clips COCO_INFO frames ptype ranges OBJ_COUNT).

Definition yielded (evs : list planner_event)
  : list (list PromptInfo * ClipRange) :=
  flat_map (fun ev => match ev with
                      | Yielded ps r => [(ps, r)]
                      | Warned _ _ => []
                      end) evs.

Definition warned (evs : list planner_event) : list ClipRange :=
  flat_map (fun ev => match ev with
                      | Yielded _ _ => []
                      | Warned r _ => [r]
                      end) evs.

(** *** Clip Planner: category-growth mode *)

(** An element of the list [get_prompts_from_categories] returns.  [NoneClip e]
    is the Python value [([None], ClipRange(None, e))], appended when no
    keyframe opened a clip. *)
Inductive plan_entry : Type :=
  | Clip (clip_prompts : list PromptInfo) (clip_range : ClipRange)
  | NoneClip (last : Z).

(** [get_num_categories(frame)] *)
Definition get_num_categories (COCO_INFO : Coco) (frame : Frame) : gset Z :=
  list_to_set (map category_id (loadAnns COCO_INFO (id frame))).

(** The loop's variables.  [previous] holds [previous_start_idx] and
    [previous_prompt_info], which are assigned together.  The list
    [prompt_and_ranges] is not carried: it is empty for as long as the loop
    runs, its one [append] inside the loop being the call that raises. *)
Record cat_state : Type := {
  existing_cats : gset Z;
  previous : option (Z * PromptInfo);
  cat_count : Z
}.

Fixpoint cat_loop (COCO_INFO : Coco) (frames : list Frame) (st : cat_state)
  : result cat_state :=
  match frames with
  | [] => Ok st
  | frame :: rest =>
      if negb (is_det_keyframe frame) then cat_loop COCO_INFO rest st
      else if bool_decide (get_num_categories COCO_INFO frame ⊆ existing_cats st)
      then cat_loop COCO_INFO rest st
      else
        let diff_cats := get_num_categories COCO_INFO frame ∖ existing_cats st in
        let existing := existing_cats st ∪ diff_cats in
        let '(objs, c) := get_each_obj COCO_INFO frame 1 None (cat_count st) in
        (* [if prompt_objs is None: continue] never fires: [get_each_obj]
           returns a list *)
        let prompt_frame_idx := order_in_video frame in
        let prompt_info := prompt_info_at frame objs "points" in
        match previous st with
        | None =>
            cat_loop COCO_INFO rest
              {| existing_cats := existing;
                 previous := Some (prompt_frame_idx, prompt_info);
                 cat_count := c |}
        | Some _ =>
            (* prompt_and_ranges.append([previous_prompt_info], ClipRange(..)):
               list.append takes exactly one argument *)
            Raise TypeError
        end
  end.

Definition get_prompts_from_categories (COCO_INFO : Coco) (frames : list Frame)
    (OBJ_COUNT : Z) : result (list plan_entry * Z) :=
  st <- cat_loop COCO_INFO frames
          {| existing_cats := ∅; previous := None; cat_count := OBJ_COUNT |} ;;
  let last := Z.of_nat (length frames) - 1 in
  Ok (match previous st with
      | None => [NoneClip last]
      | Some (previous_start_idx, previous_prompt_info) =>
          if previous_start_idx =? last then []
          else [Clip [previous_prompt_info]
                     {| start_idx := previous_start_idx; end_idx := last |}]
      end, cat_count st).

End DataModel.

(** ** The video predictor (SAM2) *)

Section Predictor.
Context {U : Utils}.

(** A call of [add_new_points_or_box] or [add_new_mask]. *)
Inductive seed : Type :=
  | SeedPoints (fidx oid : Z) (points : Points)
  | SeedBox (fidx oid : Z) (box : BBox)
  | SeedMask (fidx oid : Z) (mask : mask2).

(** The inference state: the staged frame files, by clip-relative index, and
    the prompts added so far. *)
Record inference_state : Type := {
  video_paths : list string;
  seeds : list seed
}.

Class Sam2 : Type := {
  Logit : Type;
  Score : Type;
  (** [(logit > 0.0).cpu().numpy()] *)
  mask_of_logit : Logit -> mask3;
  (** [torch.sigmoid(logit).max().item()] *)
  score_of_logit : Logit -> Score;
  (** [predictor.propagate_in_video(inference_state, reverse)], as the list
      of [(out_frame_idx, out_obj_ids, out_mask_logits)] it produces.  The
      forward pass always runs right after the reverse pass on the same
      state, so what it produces is a function of that state too. *)
  propagate_in_video : inference_state -> bool -> list (Z * list Z * list Logit)
}.

End Predictor.

Section Pipeline.
Context {U : Utils} {M : Sam2}.

(** The value stored per object and frame: [{"mask": ..., "score": ...}]. *)
Record SegInfo : Type := {
  mask : mask3;
  score : Score
}.

(** [VideoSegment]: frame ordinal -> object id -> [SegInfo]. *)
Definition VideoSegment : Type := dict (dict SegInfo).

(** ** Clip Processor *)

(** One turn of [add_prompt]'s loop.  [bound] tells whether [out_obj_ids] has
    been assigned: no [case] matches an unknown [prompt_type]. *)
Definition add_one (obj : PromptObject) (fidx : Z) (ptype : string)
    (st : inference_state * bool) : inference_state * bool :=
  let '(s, bound) := st in
  if String.eqb ptype "points" then
    ({| video_paths := video_paths s;
        seeds := seeds s ++ [SeedPoints fidx (obj_id obj) (po_points obj)] |}, true)
  else if String.eqb ptype "bbox" then
    ({| video_paths := video_paths s;
        seeds := seeds s ++ [SeedBox fidx (obj_id obj) (po_bbox obj)] |}, true)
  else if String.eqb ptype "mask" then
    ({| video_paths := video_paths s;
        seeds := seeds s ++ [SeedMask fidx (obj_id obj) (po_mask obj)] |}, true)
  else (s, bound).

(** [add_prompt]: the final [return] reads [out_obj_ids], which is unbound
    when no object was added. *)
Definition add_prompt (objs : list PromptObject) (s : inference_state)
    (prompt_frame_order_in_video : Z) (ptype : string) : result inference_state :=
  let '(s', bound) :=
    fold_left (fun st obj => add_one obj prompt_frame_order_in_video ptype st)
              objs (s, false) in
  if bound then Ok s' else Raise UnboundLocalError.

(** The dict comprehension of [predict_on_video]:
    [{out_obj_id: {...out_mask_logits[i]...} for i, out_obj_id in enumerate(out_obj_ids)}] *)
Fixpoint frame_segments (i : nat) (out_obj_ids : list Z)
    (out_mask_logits : list Logit) (acc : dict SegInfo) : result (dict SegInfo) :=
  match out_obj_ids with
  | [] => Ok acc
  | out_obj_id :: rest =>
      match nth_error out_mask_logits i with
      | None => Raise IndexError
      | Some logit =>
          frame_segments (S i) rest out_mask_logits
            (dict_set out_obj_id
               {| mask := mask_of_logit logit; score := score_of_logit logit |}
               acc)
      end
  end.

(** One propagation pass: [video_segments[out_frame_idx + start_idx] = {...}]
    for each produced frame. *)
Fixpoint write_pass (outs : list (Z * list Z * list Logit)) (start : Z)
    (video_segments : VideoSegment) : result VideoSegment :=
  match outs with
  | [] => Ok video_segments
  | (out_frame_idx, out_obj_ids, out_mask_logits) :: rest =>
      seg <- frame_segments 0 out_obj_ids out_mask_logits [] ;;
      write_pass rest start (dict_set (out_frame_idx + start) seg video_segments)
  end.

(** [predict_on_video]: the reverse pass, then the forward pass. *)
Definition predict_on_video (s : inference_state) (start : Z) : result VideoSegment :=
  video_segments <- write_pass (propagate_in_video s true) start [] ;;
  write_pass (propagate_in_video s false) start video_segments.

(** The prompt loop of [process_video_clip]. *)
Fixpoint add_prompts (clip_prompts : list PromptInfo) (start : Z)
    (s : inference_state) : result inference_state :=
  match clip_prompts with
  | [] => Ok s
  | prompt_info :: rest =>
      s' <- add_prompt (prompt_objs prompt_info) s
              (frame_idx prompt_info - start) (prompt_type prompt_info) ;;
      add_prompts rest start s'
  end.

Definition process_video_clip (frames : list Frame)
    (clip_prompts : list PromptInfo) (clip_range : ClipRange) : result VideoSegment :=
  let start := start_idx clip_range in
  let video_dir := map path (slice frames start (end_idx clip_range + 1)) in
  s <- add_prompts clip_prompts start {| video_paths := video_dir; seeds := [] |} ;;
  predict_on_video s start.

(** ** Video Orchestrator *)

(** [get_obj_from_masks(video_segment)] *)
Fixpoint get_obj_from_masks (video_segment : dict SegInfo)
  : result (list PromptObject) :=
  match video_segment with
  | [] => Ok []
  | (oid, obj_seg) :: rest =>
      if sum3 (mask obj_seg) =? 0 then get_obj_from_masks rest
      else
        m <- squeeze0 (mask obj_seg) ;;
        objs <- get_obj_from_masks rest ;;
        Ok (map (fun sub => {| po_mask := sub;
                               po_bbox := mask_to_bbox sub;
                               po_points := mask_to_points sub None;
                               obj_id := oid |})
                (mask_to_masks m) ++ objs)
  end.

(** The loop variables of [process_singel_video], with the global
    [PROMPT_INFO]. *)
Record orch_state : Type := {
  video_segments : VideoSegment;
  previous_frame_mask_prompt : option PromptInfo;
  PROMPT_INFO : list PromptInfo
}.

(** The prompts of a clip after the conditional [clip_prompts.append(..)]. *)
Definition with_carried (variable_cats : bool) (carried : option PromptInfo)
    (clip_prompts : list PromptInfo) : list PromptInfo :=
  match variable_cats, carried with
  | true, Some p => clip_prompts ++ [p]
  | _, _ => clip_prompts
  end.

(** One turn of the loop over [gen_clip_prompts].  A [NoneClip] gets as far as
    [process_video_clip], where subscripting its [None] prompt raises. *)
Definition clip_turn (frames : list Frame) (ptype : string) (variable_cats : bool)
    (st : orch_state) (entry : plan_entry) : result orch_state :=
  match entry with
  | NoneClip _ => Raise TypeError
  | Clip clip_prompts clip_range =>
      let clip_prompts :=
        with_carried variable_cats (previous_frame_mask_prompt st) clip_prompts in
      let log := PROMPT_INFO st ++ clip_prompts in
      segs <- process_video_clip frames clip_prompts clip_range ;;
      let vs := dict_update (video_segments st) segs in
      if variable_cats then
        seg <- subscript vs (end_idx clip_range) ;;
        objs <- get_obj_from_masks seg ;;
        f0 <- index frames 0 ;;
        fe <- index frames (end_idx clip_range) ;;
        Ok {| video_segments := vs;
              previous_frame_mask_prompt :=
                Some {| prompt_objs := objs;
                        frame_idx := end_idx clip_range;
                        prompt_type := ptype;
                        pi_video_id := str (video_id f0);
                        pi_path := path fe |};
              PROMPT_INFO := log |}
      else
        Ok {| video_segments := vs;
              previous_frame_mask_prompt := previous_frame_mask_prompt st;
              PROMPT_INFO := log |}
  end.

Fixpoint run_clips (frames : list Frame) (ptype : string) (variable_cats : bool)
    (plan : list plan_entry) (st : orch_state) : result orch_state :=
  match plan with
  | [] => Ok st
  | entry :: rest =>
      st' <- clip_turn frames ptype variable_cats st entry ;;
      run_clips frames ptype variable_cats rest st'
  end.

Definition entries (evs : list planner_event) : list plan_entry :=
  map (fun pr => Clip (fst pr) (snd pr)) (yielded evs).

(** [process_singel_video(frames, prompt_type, clip_length, variable_cats)]:
    the video's segments, with the new values of the globals [PROMPT_INFO] and
    [OBJ_COUNT] (which is reset to 0 on entry). *)
Definition process_singel_video (COCO_INFO : Coco) (frames : list Frame)
    (ptype : string) (clip_length : option Z) (variable_cats : bool)
    (log : list PromptInfo) : result (VideoSegment * list PromptInfo * Z) :=
  gen <- (if variable_cats then get_prompts_from_categories COCO_INFO frames 0
          else
            r <- get_clip_prompts COCO_INFO frames ptype clip_length 0 ;;
            Ok (entries (fst r), snd r)) ;;
  st <- run_clips frames ptype variable_cats (fst gen)
          {| video_segments := [];
             previous_frame_mask_prompt := None;
             PROMPT_INFO := log |} ;;
  Ok (video_segments st, PROMPT_INFO st, snd gen).

(** ** Mask Reassembler *)

Record Annotation : Type := {
  a_image_id : Z;
  a_category_id : Z;
  a_segmentation : RLE;
  a_bbox : BBox;
  a_iscrowd : Z;
  a_score : Score
}.

(** One turn of the merging loop: [merged_mask] and the local [score], which
    every turn overwrites.  Merging into a category that is already there
    calls [np.logical_or], which raises on masks of different shapes. *)
Definition merge_turn (n_cat : Z) (acc : dict mask2 * option Score)
    (item : Z * SegInfo) : result (dict mask2 * option Score) :=
  let '(merged_mask, _) := acc in
  let '(key, mask_info) := item in
  let remainder := decode n_cat key in
  let m_mask := logical_or_reduce (mask mask_info) in
  let sc := score mask_info in
  match dict_get remainder merged_mask with
  | None => Ok (dict_set remainder m_mask merged_mask, Some sc)
  | Some old =>
      m <- logical_or old m_mask ;;
      Ok (dict_set remainder m merged_mask, Some sc)
  end.

Fixpoint merge_loop (n_cat : Z) (segment : dict SegInfo)
    (acc : dict mask2 * option Score) : result (dict mask2 * option Score) :=
  match segment with
  | [] => Ok acc
  | item :: rest =>
      acc' <- merge_turn n_cat acc item ;;
      merge_loop n_cat rest acc'
  end.

Definition merge_masks (n_cat : Z) (segment : dict SegInfo)
    (sc : option Score) : result (dict mask2 * option Score) :=
  merge_loop n_cat segment ([], sc).

(** The emitting loop over [merged_mask.items()]; [sc] is the local [score] as
    the merging loop left it ([None]: never assigned). *)
Fixpoint emit (frame : Frame) (merged_mask : dict mask2) (sc : option Score)
  : result (list Annotation) :=
  match merged_mask with
  | [] => Ok []
  | (key, m) :: rest =>
      if sum2 m =? 0 then emit frame rest sc
      else
        match sc with
        | None => Raise UnboundLocalError
        | Some s =>
            more <- emit frame rest sc ;;
            Ok ({| a_image_id := id frame;
                   a_category_id := key;
                   a_segmentation := maskUtils_encode m;
                   a_bbox := mask_to_bbox m;
                   a_iscrowd := 0;
                   a_score := s |} :: more)
        end
  end.

(** The body of the loop over a video's frames. *)
Definition reassemble_frame (n_cat : Z) (vs : VideoSegment) (frame : Frame)
    (sc : option Score) : result (list Annotation * option Score) :=
  if negb (is_det_keyframe frame) then Ok ([], sc)
  else
    segment <- subscript vs (order_in_video frame) ;;
    merged <- merge_masks n_cat segment sc ;;
    recs <- emit frame (fst merged) (snd merged) ;;
    Ok (recs, snd merged).

Fixpoint reassemble_frames (n_cat : Z) (vs : VideoSegment) (frames : list Frame)
    (sc : option Score) : result (list Annotation * option Score) :=
  match frames with
  | [] => Ok ([], sc)
  | frame :: rest =>
      r <- reassemble_frame n_cat vs frame sc ;;
      r' <- reassemble_frames n_cat vs rest (snd r) ;;
      Ok (fst r ++ fst r', snd r')
  end.

(** [sort_dicts_by_field(frames, "order_in_video")]: [sorted] is stable. *)
Fixpoint insert_sorted (f : Frame) (l : list Frame) : list Frame :=
  match l with
  | [] => [f]
  | g :: l' =>
      if order_in_video f <=? order_in_video g then f :: l
      else g :: insert_sorted f l'
  end.

Definition sort_dicts_by_field (frames : list Frame) : list Frame :=
  fold_right insert_sorted [] frames.

Fixpoint reassemble_videos (COCO_INFO : Coco)
    (all_video_segments : dict VideoSegment) (videos : list Z)
    (sc : option Score) : result (list Annotation) :=
  match videos with
  | [] => Ok []
  | vid :: rest =>
      vs <- subscript all_video_segments vid ;;
      let frames :=
        sort_dicts_by_field (get_dicts_by_field_value (imgs COCO_INFO) vid) in
      r <- reassemble_frames (num_cat COCO_INFO) vs frames sc ;;
      more <- reassemble_videos COCO_INFO all_video_segments rest (snd r) ;;
      Ok (fst r ++ more)
  end.

(** [save_as_coco_format(all_video_segments, save_video_list)], up to the
    list [coco_annotations] that is then written out.  [VIDEO_ID_SET] is the
    global set, in the order in which it iterates. *)
Definition save_as_coco_format (COCO_INFO : Coco) (VIDEO_ID_SET : list Z)
    (all_video_segments : dict VideoSegment) (save_video_list : option (list Z))
  : result (list Annotation) :=
  let videos := match save_video_list with
                | Some l => l
                | None => VIDEO_ID_SET
                end in
  reassemble_videos COCO_INFO all_video_segments videos None.

End Pipeline.

Section Dataset.
Context {U : Utils} {M : Sam2}.

(** [process_all_videos]: every video's frames are taken from the dataset in
    the order in which the dataset lists them. *)
Fixpoint process_all_videos (COCO_INFO : Coco) (VIDEO_ID_SET : list Z)
    (ptype : string) (clip_length : option Z) (variable_cats : bool)
    (all_video_segments : dict VideoSegment) (log : list PromptInfo)
  : result (dict VideoSegment * list PromptInfo) :=
  match VIDEO_ID_SET with
  | [] => Ok (all_video_segments, log)
  | vid :: rest =>
      let frames := get_dicts_by_field_value (imgs COCO_INFO) vid in
      r <- process_singel_video COCO_INFO frames ptype clip_length variable_cats log ;;
      process_all_videos COCO_INFO rest ptype clip_length variable_cats
        (dict_set vid (fst (fst r)) all_video_segments) (snd (fst r))
  end.

(** The frame that seeds a clip of video [vid] in a fixed-length run. *)
Definition prompt_frame_of (COCO_INFO : Coco) (vid : Z) (clip_range : ClipRange)
  : option Frame :=
  find_prompt_frame COCO_INFO (get_dicts_by_field_value (imgs COCO_INFO) vid)
    clip_range.

End Dataset.

(** ** Specification vocabulary *)

(** [rs], in order, tile [lo .. hi]: each range starts where the previous one
    stopped, none is empty, and the last one ends at [hi]. *)
Fixpoint tiles_from (lo hi : Z) (rs : list ClipRange) : bool :=
  match rs with
  | [] => lo =? hi + 1
  | r :: rs' =>
      (start_idx r =? lo) && (start_idx r <=? end_idx r)
      && tiles_from (end_idx r + 1) hi rs'
  end.

(** The ranges tile [0 .. n-1]. *)
Definition tiles (n : Z) (rs : list ClipRange) : bool := tiles_from 0 (n - 1) rs.

Definition covers (r : ClipRange) (f : Z) : Prop := start_idx r <= f <= end_idx r.

Section SpecVocabulary.
Context {U : Utils}.

(** A frame that may seed the clip: an annotated keyframe inside the range. *)
Definition qualifies (COCO_INFO : Coco) (clip_range : ClipRange) (f : Frame) : bool :=
  is_det_keyframe f && in_range clip_range f && has_anns COCO_INFO f.

(** [f] is an annotated keyframe whose ordinal lies in the clip range. *)
Definition annotated_keyframe_in (COCO_INFO : Coco) (r : ClipRange) (f : Frame)
  : bool :=
  is_det_keyframe f
  && (start_idx r <=? order_in_video f) && (order_in_video f <=? end_idx r)
  && has_anns COCO_INFO f.

(** The clip range contains an annotated keyframe of the frame list. *)
Definition holds_annotated_keyframe (COCO_INFO : Coco) (frames : list Frame)
    (r : ClipRange) : bool :=
  existsb (annotated_keyframe_in COCO_INFO r) frames.

(** Whether a clip range has a prompt frame. *)
Definition has_prompt (COCO_INFO : Coco) (frames : list Frame) (r : ClipRange) : bool :=
  match find_prompt_frame COCO_INFO frames r with
  | Some _ => true
  | None => false
  end.

(** A keyframe that brings a category outside [seen]. *)
Definition opens (COCO_INFO : Coco) (seen : gset Z) (f : Frame) : bool :=
  is_det_keyframe f && negb (bool_decide (get_num_categories COCO_INFO f ⊆ seen)).

(** The state in which the loop leaves the frame that opens the first clip. *)
Definition opened (COCO_INFO : Coco) (st : cat_state) (f : Frame) : cat_state :=
  {| existing_cats :=
       existing_cats st ∪ (get_num_categories COCO_INFO f ∖ existing_cats st);
     previous :=
       Some (order_in_video f,
             prompt_info_at f
               (fst (get_each_obj COCO_INFO f 1 None (cat_count st))) "points");
     cat_count := snd (get_each_obj COCO_INFO f 1 None (cat_count st)) |}.

(** The ranges of a plan's clips. *)
Definition entry_ranges (e : plan_entry) : list ClipRange :=
  match e with
  | Clip _ r => [r]
  | NoneClip _ => []
  end.

(** The keyframes at which the running category set grows. *)
Fixpoint introducing (COCO_INFO : Coco) (frames : list Frame) (seen : gset Z)
  : list Frame :=
  match frames with
  | [] => []
  | f :: rest =>
      if is_det_keyframe f
         && negb (bool_decide (get_num_categories COCO_INFO f ⊆ seen))
      then f :: introducing COCO_INFO rest (seen ∪ get_num_categories COCO_INFO f)
      else introducing COCO_INFO rest seen
  end.

(** Every annotation's category id lies in [lo .. hi]. *)
Definition cats_within (COCO_INFO : Coco) (lo hi : Z) : Prop :=
  Forall (fun a => lo <= category_id a <= hi) (anns COCO_INFO).

Definition all_objs (clips : list (list PromptInfo * ClipRange)) : list PromptObject :=
  flat_map (fun c => flat_map prompt_objs (fst c)) clips.

(** Whether [get_each_obj] keeps an annotation under its [cats] filter. *)
Definition kept (filter_cats : option (gset Z)) (a : Ann) : bool :=
  match filter_cats with
  | Some cs => bool_decide (category_id a ∈ cs)
  | None => true
  end.

(** The category of every instance of a frame, in the order in which
    [get_each_obj] emits the instances: each kept annotation counts once per
    sub-mask of its mask. *)
Definition instance_categories (COCO_INFO : Coco) (f : Frame)
    (filter_cats : option (gset Z)) : list Z :=
  flat_map (fun a => repeat (category_id a)
                       (length (mask_to_masks (maskUtils_decode (segmentation a)))))
           (List.filter (kept filter_cats) (loadAnns COCO_INFO (id f))).

(** The instance sequence number that an object id carries. *)
Definition seqno (n_cat key : Z) : Z := key / (n_cat + 1).

(** [count, count + 1, ..] ([len] numbers). *)
Definition zseq (count : Z) (len : nat) : list Z :=
  map (fun k => count + Z.of_nat k) (seq 0 len).

(** [objs] carry the sequence numbers [c], [c + 1], .. up to [c' - 1]. *)
Definition numbered (n_cat c c' : Z) (objs : list PromptObject) : Prop :=
  map (fun o => seqno n_cat (obj_id o)) objs = zseq c (length objs)
  /\ c' = c + Z.of_nat (length objs).

Definition entry_objs (e : plan_entry) : list PromptObject :=
  match e with
  | Clip ps _ => flat_map prompt_objs ps
  | NoneClip _ => []
  end.


End SpecVocabulary.

Section CarriedVocabulary.
Context {U : Utils} {M : Sam2}.

(** The sub-masks of an instance's one-channel mask. *)
Definition components_of (info : SegInfo) : list mask2 :=
  match mask info with
  | [c] => mask_to_masks c
  | _ => []
  end.

(** The prompt object that carries sub-mask [sub] of object [oid]. *)
Definition carried_obj (oid : Z) (sub : mask2) : PromptObject :=
  {| po_mask := sub;
     po_bbox := mask_to_bbox sub;
     po_points := mask_to_points sub None;
     obj_id := oid |}.

(** The objects carried over a clip boundary: for each instance of the
    segment whose mask is not entirely empty, in the segment's order, one
    object per sub-mask, under the instance's id. *)
Definition carried_objs (seg : dict SegInfo) : list PromptObject :=
  flat_map (fun kv => if sum3 (mask (snd kv)) =? 0 then []
                      else map (carried_obj (fst kv)) (components_of (snd kv)))
           seg.

(** The flattened masks of the instances of a segment that decode to
    category [c], in the segment's order. *)
Definition instance_masks (n_cat c : Z) (segment : dict SegInfo) : list mask2 :=
  map (fun kv => logical_or_reduce (mask (snd kv)))
      (List.filter (fun kv => decode n_cat (fst kv) =? c) segment).

(** [np.logical_or] of [m0] with the masks [ms], from left to right. *)
Definition or_all (m0 : mask2) (ms : list mask2) : result mask2 :=
  fold_left (fun acc x => a <- acc ;; logical_or a x) ms (Ok m0).

(** The boolean OR of a list of masks: [None] for no mask at all,
    [Some (Ok m)] when the masks can be combined into [m]. *)
Definition union_masks (l : list mask2) : option (result mask2) :=
  match l with
  | [] => None
  | m :: ms => Some (or_all m ms)
  end.

(** The pixel count of an instance's flattened mask. *)
Definition pixels (info : SegInfo) : nat :=
  length (logical_or_reduce (mask info)).

(** The instances of a frame's segment have masks of one shape. *)
Definition same_shape (seg : dict SegInfo) : Prop :=
  exists n, Forall (fun kv => pixels (snd kv) = n) seg.

(** Every frame of a video's segments has masks of one shape. *)
Definition uniform_shapes (vs : VideoSegment) : Prop :=
  Forall (fun kv => same_shape (snd kv)) vs.

(** The record written for category [fst kv] with merged mask [snd kv]. *)
Definition annotation_of (frame : Frame) (s : Score) (kv : Z * mask2) : Annotation :=
  {| a_image_id := id frame;
     a_category_id := fst kv;
     a_segmentation := maskUtils_encode (snd kv);
     a_bbox := mask_to_bbox (snd kv);
     a_iscrowd := 0;
     a_score := s |}.

Definition nonempty (kv : Z * mask2) : bool := negb (sum2 (snd kv) =? 0).

(** A clip range that lies inside a video of [n] frames. *)
Definition range_inside (n : Z) (r : ClipRange) : Prop :=
  0 <= start_idx r /\ start_idx r <= end_idx r /\ end_idx r <= n - 1.

End CarriedVocabulary.

(** The frame index of one propagation output. *)
Definition out_frame {U : Utils} {M : Sam2} (o : Z * list Z * list Logit) : Z :=
  fst (fst o).

(** The predictor's contract on frame indices: a propagation pass only
    produces indices of the staged clip, [0 .. len - 1]. *)
Definition predictor_in_range {U : Utils} {M : Sam2} : Prop :=
  forall (s : inference_state) (reverse : bool) o,
    In o (propagate_in_video s reverse) ->
    0 <= out_frame o < Z.of_nat (length (video_paths s)).

(** ** A concrete collaborator set for one-row images

    Used to run the pipeline on explicit inputs.  Masks are single rows; a
    connected component is a maximal run of set pixels. *)

Module Stub.

Fixpoint row_runs (m : list bool) (i : nat) (opened : option nat)
  : list (nat * nat) :=
  match m with
  | [] => match opened with Some a => [(a, i)] | None => [] end
  | true :: m' =>
      row_runs m' (S i) (match opened with Some a => Some a | None => Some i end)
  | false :: m' =>
      match opened with
      | Some a => (a, i) :: row_runs m' (S i) None
      | None => row_runs m' (S i) None
      end
  end.

Definition row_components (m : mask2) : list mask2 :=
  map (fun ab => map (fun k => Nat.leb (fst ab) k && Nat.ltb k (snd ab))
                     (seq 0 (length m)))
      (row_runs m 0 None).

Definition row_bbox (m : mask2) : list (nat * nat) := row_runs m 0 None.

Definition row_points (m : mask2) (k : option Z) : list nat :=
  firstn (match k with Some n => Z.to_nat n | None => 1%nat end)
         (map fst (row_runs m 0 None)).

#[export] Instance utils : Utils := {|
  RLE := mask2;
  BBox := list (nat * nat);
  Points := list nat;
  maskUtils_decode := fun r => r;
  maskUtils_encode := fun m => m;
  mask_to_masks := row_components;
  mask_to_bbox := row_bbox;
  mask_to_points := row_points
|}.

Definition seed_fidx (s : seed) : Z :=
  match s with
  | SeedPoints f _ _ | SeedBox f _ _ | SeedMask f _ _ => f
  end.

Definition seed_oid (s : seed) : Z :=
  match s with
  | SeedPoints _ o _ | SeedBox _ o _ | SeedMask _ o _ => o
  end.

Fixpoint dedup (l : list Z) : list Z :=
  match l with
  | [] => []
  | x :: l' => if existsb (Z.eqb x) l' then dedup l' else x :: dedup l'
  end.

(** A tracker that repeats a fixed three-pixel mask, of two components, for
    every seeded object on every frame of the clip; the passes differ in their scores (in percent):
    40 backwards, 90 forwards. *)
Definition propagate (s : inference_state) (reverse : bool)
  : list (Z * list Z * list (mask3 * Z)) :=
  let n := length (video_paths s) in
  let oids := dedup (map seed_oid (seeds s)) in
  let anchor := match seeds s with
                | sd :: _ => Z.to_nat (seed_fidx sd)
                | [] => 0%nat
                end in
  let idxs := if reverse then rev (seq 0 (Nat.min (S anchor) n))
              else seq anchor (n - anchor) in
  map (fun i => (Z.of_nat i, oids,
                 map (fun _ => ([[true; false; true]], if reverse then 40 else 90))
                     oids))
      idxs.

#[export] Instance sam2 : Sam2 := {|
  Logit := mask3 * Z;
  Score := Z;
  mask_of_logit := fst;
  score_of_logit := snd;
  propagate_in_video := propagate
|}.

Definition frame (i v o : Z) (k : bool) : Frame :=
  {| id := i; video_id := v; order_in_video := o; is_det_keyframe := k;
     path := "f" |}.

Definition ann (i c : Z) (m : mask2) : Ann :=
  {| image_id := i; category_id := c; segmentation := m |}.

End Stub.

(** ** Explicit inputs *)

Module Inputs.
Import Stub.

(** Video 7: six frames, keyframes at ordinals 1 and 4, one annotation (of
    category 1, in two pieces) on the keyframe at ordinal 1. *)
Definition frames6 : list Frame :=
  map (fun o => frame (100 + o) 7 o ((o =? 1) || (o =? 4))) [0; 1; 2; 3; 4; 5].

Definition coco6 : Coco :=
  {| imgs := frames6;
     anns := [ann 101 1 [true; true; false; true]];
     cats := [1] |}.

Definition evs6 : list planner_event :=
  Eval vm_compute in
    match get_clip_prompts coco6 frames6 "points" (Some 3) 0 with
    | Ok r => fst r
    | Raise _ => []
    end.

Definition plan6 : list plan_entry :=
  Eval vm_compute in
    match get_prompts_from_categories coco6 frames6 0 with
    | Ok r => fst r
    | Raise _ => []
    end.

Definition vs6 : VideoSegment :=
  Eval vm_compute in
    match process_singel_video coco6 frames6 "points" (Some 3) false [] with
    | Ok r => fst (fst r)
    | Raise _ => []
    end.

(** Video 8: six frames, keyframes at ordinals 0 and 3; category 0 appears on
    the first keyframe, category 1 joins on the second. *)
Definition frames_g : list Frame :=
  map (fun o => frame (200 + o) 8 o ((o =? 0) || (o =? 3))) [0; 1; 2; 3; 4; 5].

Definition coco_g : Coco :=
  {| imgs := frames_g;
     anns := [ann 200 0 [true; true; false];
              ann 203 0 [true; true; false];
              ann 203 1 [false; false; true]];
     cats := [0; 1] |}.

Definition f_g0 : Frame := frame 200 8 0 true.
Definition f_g3 : Frame := frame 203 8 3 true.

Definition st0 : orch_state :=
  {| video_segments := []; previous_frame_mask_prompt := None; PROMPT_INFO := [] |}.


(** A staged three-frame clip seeded with object 5 on its middle frame. *)
Definition s3 : inference_state :=
  {| video_paths := ["a"; "b"; "c"]%string;
     seeds := [SeedPoints 1 5 [0%nat]] |}.

Definition vs3 : VideoSegment :=
  Eval vm_compute in
    match predict_on_video s3 3 with
    | Ok vs => vs
    | Raise _ => []
    end.

(** Video 9, one keyframe: an instance of category 1 (object id 1, score 90)
    and one of category 2 (object id 5, score 30), among two categories. *)
Definition frames_r : list Frame := [frame 300 9 0 true].

Definition coco_r : Coco := {| imgs := frames_r; anns := []; cats := [1; 2] |}.

Definition vs_r : VideoSegment :=
  [(0, [(1, {| mask := [[true; false]]; score := 90 |});
        (5, {| mask := [[false; true]]; score := 30 |})])].

(** Video 10, listed by the dataset out of temporal order: the frame of
    ordinal 1 comes before the frame of ordinal 0; both are annotated
    keyframes. *)
Definition coco_u : Coco :=
  {| imgs := [frame 401 10 1 true; frame 400 10 0 true];
     anns := [ann 401 1 [true]; ann 400 1 [true]];
     cats := [1] |}.

End Inputs.

(** ** Further vocabulary *)

Section FurtherVocabulary.
Context {U : Utils} {M : Sam2}.

(** A prompt kind for which [add_prompt] has a [case]. *)
Definition known_kind (ptype : string) : bool :=
  String.eqb ptype "points" || String.eqb ptype "bbox" || String.eqb ptype "mask".

(** The predictor call that [add_prompt] makes for an object, by kind. *)
Definition seed_of (ptype : string) (fidx : Z) (obj : PromptObject) : seed :=
  if String.eqb ptype "points" then SeedPoints fidx (obj_id obj) (po_points obj)
  else if String.eqb ptype "bbox" then SeedBox fidx (obj_id obj) (po_bbox obj)
  else SeedMask fidx (obj_id obj) (po_mask obj).

(** A propagation output with a logit for every object id. *)
Definition logits_cover (o : Z * list Z * list Logit) : Prop :=
  (length (snd (fst o)) <= length (snd o))%nat.

(** An instance that [get_obj_from_masks] can carry: an entirely empty
    mask, or a mask of exactly one channel. *)
Definition carriable (info : SegInfo) : bool :=
  (sum3 (mask info) =? 0)
  || match mask info with [_] => true | _ => false end.

(** A keyframe of video [vid] in the dataset. *)
Definition keyframe_of (COCO_INFO : Coco) (vid : Z) (f : Frame) : Prop :=
  In f (imgs COCO_INFO) /\ video_id f = vid /\ is_det_keyframe f = true.

(** What every output record satisfies: not a crowd, a category id that a
    decoded object id can take, and the image of a keyframe of a saved
    video. *)
Definition well_formed_record (COCO_INFO : Coco) (videos : list Z)
    (r : Annotation) : Prop :=
  a_iscrowd r = 0
  /\ 0 <= a_category_id r <= num_cat COCO_INFO
  /\ exists vid f, In vid videos /\ keyframe_of COCO_INFO vid f
                   /\ a_image_id r = id f.

(** The ranges of the clips a planner run yielded. *)
Definition yielded_ranges (evs : list planner_event) : list ClipRange :=
  map snd (yielded evs).

End FurtherVocabulary.

Module MoreInputs.
Import Stub Inputs.

(** Video 11: three frames, none annotated. *)
Definition frames_n : list Frame :=
  map (fun o => frame (500 + o) 11 o true) [0; 1; 2].
Definition coco_n : Coco := {| imgs := frames_n; anns := []; cats := [1] |}.

(** Video 12: three frames, the last one the only annotated keyframe. *)
Definition frames_l : list Frame :=
  map (fun o => frame (600 + o) 12 o (o =? 2)) [0; 1; 2].
Definition coco_l : Coco :=
  {| imgs := frames_l; anns := [ann 602 1 [true; false]]; cats := [1] |}.

(** A segment with an empty instance and a two-channel instance. *)
Definition seg_two_channels : dict SegInfo :=
  [(1, {| mask := [[false; false]]; score := 10 |});
   (4, {| mask := [[true; false]; [false; true]]; score := 20 |})].

(** A segment with an empty instance and a one-channel instance in two
    pieces. *)
Definition seg_ok : dict SegInfo :=
  [(1, {| mask := [[false; false; false]]; score := 10 |});
   (4, {| mask := [[true; false; true]]; score := 20 |})].

(** The frames of video 7, shuffled. *)
Definition frames6_shuffled : list Frame :=
  map (fun o => frame (100 + o) 7 o ((o =? 1) || (o =? 4))) [3; 1; 5; 0; 4; 2].

(** The segments of the first clip of video 7 only: the keyframe at ordinal
    1 is there, the one at ordinal 4 is not. *)
Definition all6 : dict VideoSegment := [(7, vs6)].

(** Video 7 with a segment at every frame. *)
Definition vs6_full : VideoSegment :=
  Eval vm_compute in
    match process_singel_video coco6 frames6 "points" None false [] with
    | Ok r => fst (fst r)
    | Raise _ => []
    end.

(** What is written out for video 7 from [vs6_full]. *)
Definition recs6_full : list Annotation :=
  Eval vm_compute in
    match save_as_coco_format coco6 [7] [(7, vs6_full)] None with
    | Ok recs => recs
    | Raise _ => []
    end.

(** The prompt log that the first clip of video 7 leaves. *)
Definition log6 : list PromptInfo :=
  Eval vm_compute in
    match process_singel_video coco6 frames6 "points" (Some 3) false [] with
    | Ok r => snd (fst r)
    | Raise _ => []
    end.

(** A batch without objects. *)
Definition empty_batch : PromptInfo :=
  {| prompt_objs := []; frame_idx := 1; prompt_type := "points";
     pi_video_id := "7"; pi_path := "f" |}.

(** A propagation output with two object ids and a single logit. *)
Definition short_output : Z * list Z * list Logit :=
  (0, [1; 2], [([[true]], 50)]).

End MoreInputs.

(** * Properties *)

(** ** Dictionaries *)

Section DictFacts.
Context {V : Type}.
Implicit Types (d : dict V) (k : Z) (v : V).

Lemma dict_get_None d k : dict_get k d = None <-> ~ In k (keys d).
Proof.
  induction d as [|[k' v'] d IH]; simpl.
  - tauto.
  - destruct (Z.eqb_spec k' k) as [->|Hne].
    + split; [discriminate | intros H; exfalso; apply H; now left].
    + rewrite IH. split; [intros H [E|I]; [congruence | tauto] | tauto].
Qed.

Lemma dict_get_set_eq d k v : dict_get k (dict_set k v d) = Some v.
Proof.
  induction d as [|[k' v'] d IH]; simpl.
  - now rewrite Z.eqb_refl.
  - destruct (Z.eqb_spec k' k) as [->|Hne]; simpl.
    + now rewrite Z.eqb_refl.
    + destruct (Z.eqb_spec k' k); [congruence | exact IH].
Qed.

Lemma dict_get_set_ne d k k' v :
  k <> k' -> dict_get k' (dict_set k v d) = dict_get k' d.
Proof.
  intros Hne. induction d as [|[k0 v0] d IH]; simpl.
  - destruct (Z.eqb_spec k k'); [congruence | reflexivity].
  - destruct (Z.eqb_spec k0 k) as [->|Hne0]; simpl.
    + destruct (Z.eqb_spec k k'); [congruence | reflexivity].
    + destruct (Z.eqb_spec k0 k'); [reflexivity | exact IH].
Qed.

Lemma keys_dict_set d k v k' :
  In k' (keys (dict_set k v d)) <-> k' = k \/ In k' (keys d).
Proof.
  induction d as [|[k0 v0] d IH]; simpl.
  - intuition congruence.
  - destruct (Z.eqb_spec k0 k) as [->|Hne0]; simpl.
    + intuition congruence.
    + rewrite IH. intuition congruence.
Qed.

Lemma keys_dict_update d other k :
  In k (keys (dict_update d other)) <-> In k (keys d) \/ In k (keys other).
Proof.
  unfold dict_update. revert d.
  induction other as [|[k0 v0] other IH]; intros d; simpl.
  - tauto.
  - rewrite IH, keys_dict_set. intuition congruence.
Qed.

End DictFacts.

(** ** The prompt frame of a clip *)

Section PromptFrame.
Context {U : Utils}.
Implicit Types (COCO_INFO : Coco) (frames : list Frame) (r : ClipRange).

Lemma find_prompt_frame_step COCO_INFO f frames r :
  find_prompt_frame COCO_INFO (f :: frames) r =
  if qualifies COCO_INFO r f then Some f
  else find_prompt_frame COCO_INFO frames r.
Proof.
  unfold qualifies, in_range. simpl.
  destruct (is_det_keyframe f); simpl; [|reflexivity].
  destruct ((order_in_video f <? start_idx r) || (order_in_video f >? end_idx r));
    simpl; [reflexivity|].
  destruct (has_anns COCO_INFO f); reflexivity.
Qed.

(** The selected frame is the first one of the list, in list order, that
    qualifies. *)
Lemma find_prompt_frame_first COCO_INFO frames r f :
  find_prompt_frame COCO_INFO frames r = Some f ->
  exists before after,
    frames = before ++ f :: after
    /\ qualifies COCO_INFO r f = true
    /\ Forall (fun g => qualifies COCO_INFO r g = false) before.
Proof.
  induction frames as [|g frames IH]; [discriminate|].
  rewrite find_prompt_frame_step.
  destruct (qualifies COCO_INFO r g) eqn:Hq.
  - intros [= ->]. exists [], frames. auto.
  - intros H. destruct (IH H) as (b & a & -> & Hf & Hb).
    exists (g :: b), a. auto.
Qed.

Lemma find_prompt_frame_None COCO_INFO frames r :
  find_prompt_frame COCO_INFO frames r = None <->
  Forall (fun g => qualifies COCO_INFO r g = false) frames.
Proof.
  induction frames as [|g frames IH].
  - split; [constructor | reflexivity].
  - rewrite find_prompt_frame_step.
    destruct (qualifies COCO_INFO r g) eqn:Hq.
    + split; [discriminate | intros H; inversion H; congruence].
    + rewrite IH. split; [now constructor | intros H; now inversion H].
Qed.

(** The scan's test is that of an annotated keyframe with
    [start_idx <= order_in_video <= end_idx]. *)
Lemma qualifies_annotated_keyframe COCO_INFO r f :
  qualifies COCO_INFO r f = annotated_keyframe_in COCO_INFO r f.
Proof.
  unfold qualifies, annotated_keyframe_in, in_range.
  rewrite Z.gtb_ltb.
  destruct (is_det_keyframe f), (has_anns COCO_INFO f),
    (Z.ltb_spec (order_in_video f) (start_idx r)),
    (Z.ltb_spec (end_idx r) (order_in_video f)),
    (Z.leb_spec (start_idx r) (order_in_video f)),
    (Z.leb_spec (order_in_video f) (end_idx r)); simpl; try reflexivity; lia.
Qed.

(** The scan finds a prompt frame exactly when the clip range holds an
    annotated keyframe of the frame list. *)
Lemma has_prompt_annotated_keyframe COCO_INFO frames r :
  has_prompt COCO_INFO frames r = holds_annotated_keyframe COCO_INFO frames r.
Proof.
  unfold has_prompt, holds_annotated_keyframe.
  induction frames as [|f frames IH]; [reflexivity|].
  rewrite find_prompt_frame_step, qualifies_annotated_keyframe. simpl.
  now destruct (annotated_keyframe_in COCO_INFO r f).
Qed.

Lemma filter_has_prompt COCO_INFO frames (ranges : list ClipRange) :
  List.filter (has_prompt COCO_INFO frames) ranges
  = List.filter (holds_annotated_keyframe COCO_INFO frames) ranges.
Proof.
  apply filter_ext. intros r. apply has_prompt_annotated_keyframe.
Qed.

(** On a frame list that ascends in [order_in_video] the first qualifying
    frame is also the one with the smallest ordinal. *)
Lemma find_prompt_frame_sorted_min COCO_INFO frames r f :
  StronglySorted (fun a b => order_in_video a <= order_in_video b) frames ->
  find_prompt_frame COCO_INFO frames r = Some f ->
  forall g, In g frames -> qualifies COCO_INFO r g = true ->
            order_in_video f <= order_in_video g.
Proof.
  intros Hs. induction Hs as [|h frames Hs IH Hall]; [discriminate|].
  rewrite find_prompt_frame_step.
  destruct (qualifies COCO_INFO r h) eqn:Hh.
  - intros [= <-] g [<-|Hg] _; [lia|].
    rewrite List.Forall_forall in Hall. now apply Hall.
  - intros Hf g [<-|Hg] Hq; [congruence|]. now apply IH.
Qed.

End PromptFrame.

(** ** Object Identity Encoder *)

Section Encoder.
Context {U : Utils}.
Implicit Types (COCO_INFO : Coco) (objs : list PromptObject).

Lemma decode_encode n_cat count cat :
  0 <= cat <= n_cat -> decode n_cat (encode n_cat count cat) = cat.
Proof.
  intros H. unfold decode, encode.
  rewrite Z.add_comm, Z_mod_plus_full. apply Z.mod_small. lia.
Qed.

Lemma seqno_encode n_cat count cat :
  0 <= cat <= n_cat -> seqno n_cat (encode n_cat count cat) = count.
Proof.
  intros H. unfold seqno, encode.
  rewrite Z.div_add_l by lia. rewrite Z.div_small by lia. lia.
Qed.

Lemma zseq_shift c a b s :
  map (fun k => c + Z.of_nat k) (seq (s + a) b)
  = map (fun k => c + Z.of_nat a + Z.of_nat k) (seq s b).
Proof.
  revert s. induction b as [|b IH]; intros s; simpl; [reflexivity|].
  f_equal; [lia|]. apply (IH (S s)).
Qed.

Lemma zseq_app c a b : zseq c (a + b) = zseq c a ++ zseq (c + Z.of_nat a) b.
Proof.
  unfold zseq. rewrite seq_app, map_app. f_equal. apply zseq_shift.
Qed.

Lemma zseq_cons c n : zseq c (S n) = c :: zseq (c + 1) n.
Proof.
  change (S n) with (1 + n)%nat. rewrite zseq_app. simpl.
  unfold zseq at 1. simpl. now rewrite Z.add_0_r.
Qed.

Lemma zseq_In c n x : In x (zseq c n) -> c <= x < c + Z.of_nat n.
Proof.
  unfold zseq. rewrite in_map_iff. intros (k & <- & Hk).
  apply in_seq in Hk. lia.
Qed.

Lemma zseq_NoDup c n : List.NoDup (zseq c n).
Proof.
  revert c. induction n as [|n IH]; intros c.
  - constructor.
  - rewrite zseq_cons. constructor; [|apply IH].
    intros Hin. apply zseq_In in Hin. lia.
Qed.

Lemma numbered_nil n_cat c : numbered n_cat c c [].
Proof. split; [reflexivity | simpl; lia]. Qed.

Lemma numbered_app n_cat c c' c'' objs objs' :
  numbered n_cat c c' objs -> numbered n_cat c' c'' objs' ->
  numbered n_cat c c'' (objs ++ objs').
Proof.
  intros [H1 ->] [H2 ->]. split.
  - rewrite map_app, length_app, zseq_app, H1, H2. reflexivity.
  - rewrite length_app. lia.
Qed.

(** Objects that carry pairwise distinct sequence numbers have pairwise
    distinct ids. *)
Lemma numbered_NoDup n_cat c c' objs :
  numbered n_cat c c' objs -> List.NoDup (map obj_id objs).
Proof.
  intros [H _].
  apply (List.NoDup_map_inv (seqno n_cat)). rewrite map_map, H. apply zseq_NoDup.
Qed.

Lemma objs_of_masks_numbered n_cat cat num_points masks count :
  0 <= cat <= n_cat ->
  numbered n_cat count (snd (objs_of_masks n_cat cat num_points masks count))
           (fst (objs_of_masks n_cat cat num_points masks count)).
Proof.
  intros Hc. revert count. induction masks as [|m masks IH]; intros count; simpl.
  - apply numbered_nil.
  - specialize (IH (count + 1)).
    destruct (objs_of_masks n_cat cat num_points masks (count + 1)) as [objs c].
    simpl in *. destruct IH as [IH ->]. split; simpl.
    + rewrite zseq_cons, seqno_encode, IH by assumption. reflexivity.
    + lia.
Qed.

Lemma objs_of_masks_decode n_cat cat num_points masks count :
  0 <= cat <= n_cat ->
  map (fun o => decode n_cat (obj_id o))
      (fst (objs_of_masks n_cat cat num_points masks count))
  = repeat cat (length masks).
Proof.
  intros Hc. revert count. induction masks as [|m masks IH]; intros count; simpl.
  - reflexivity.
  - specialize (IH (count + 1)).
    destruct (objs_of_masks n_cat cat num_points masks (count + 1)) as [objs c].
    simpl in *. now rewrite decode_encode, IH.
Qed.

Lemma objs_of_anns_numbered n_cat num_points filter_cats l count :
  Forall (fun a => 0 <= category_id a <= n_cat) l ->
  numbered n_cat count (snd (objs_of_anns n_cat num_points filter_cats l count))
           (fst (objs_of_anns n_cat num_points filter_cats l count)).
Proof.
  intros Hl. revert count.
  induction Hl as [|a l Ha Hl IH]; intros count; simpl.
  - apply numbered_nil.
  - match goal with |- context [if ?b then _ else _] => destruct b end;
      [apply IH|].
    pose proof (objs_of_masks_numbered n_cat (category_id a) num_points
                  (mask_to_masks (maskUtils_decode (segmentation a))) count Ha) as H1.
    destruct (objs_of_masks _ _ _ _ count) as [objs c]. simpl in H1.
    specialize (IH c).
    destruct (objs_of_anns n_cat num_points filter_cats l c) as [objs' c'].
    simpl in *. eapply numbered_app; eassumption.
Qed.

Lemma objs_of_anns_decode n_cat num_points filter_cats l count :
  Forall (fun a => 0 <= category_id a <= n_cat) l ->
  map (fun o => decode n_cat (obj_id o))
      (fst (objs_of_anns n_cat num_points filter_cats l count))
  = flat_map (fun a => repeat (category_id a)
                         (length (mask_to_masks (maskUtils_decode (segmentation a)))))
             (List.filter (kept filter_cats) l).
Proof.
  intros Hl. revert count.
  induction Hl as [|a l Ha Hl IH]; intros count; simpl.
  - reflexivity.
  - unfold kept at 1.
    destruct filter_cats as [cs|]; simpl.
    + destruct (bool_decide (category_id a ∈ cs)); simpl; [|apply IH].
      pose proof (objs_of_masks_decode n_cat (category_id a) num_points
                    (mask_to_masks (maskUtils_decode (segmentation a))) count Ha) as H1.
      destruct (objs_of_masks _ _ _ _ count) as [objs c]. simpl in H1.
      specialize (IH c).
      destruct (objs_of_anns n_cat num_points (Some cs) l c) as [objs' c'].
      simpl in *. now rewrite map_app, H1, IH.
    + pose proof (objs_of_masks_decode n_cat (category_id a) num_points
                    (mask_to_masks (maskUtils_decode (segmentation a))) count Ha) as H1.
      destruct (objs_of_masks _ _ _ _ count) as [objs c]. simpl in H1.
      specialize (IH c).
      destruct (objs_of_anns n_cat num_points None l c) as [objs' c'].
      simpl in *. now rewrite map_app, H1, IH.
Qed.

Lemma cats_within_loadAnns COCO_INFO lo hi i :
  cats_within COCO_INFO lo hi ->
  Forall (fun a => lo <= category_id a <= hi) (loadAnns COCO_INFO i).
Proof.
  unfold cats_within, loadAnns. rewrite !List.Forall_forall.
  intros H a Ha. apply filter_In in Ha as [Ha _]. now apply H.
Qed.

Lemma get_each_obj_numbered COCO_INFO f num_points filter_cats count :
  cats_within COCO_INFO 0 (num_cat COCO_INFO) ->
  numbered (num_cat COCO_INFO) count
    (snd (get_each_obj COCO_INFO f num_points filter_cats count))
    (fst (get_each_obj COCO_INFO f num_points filter_cats count)).
Proof.
  intros H. apply objs_of_anns_numbered. now apply cats_within_loadAnns.
Qed.

(** C4.  Decoding recovers the category: for a category id in
    [0 .. num_categories - 1] and any value of the per-video counter,
    [(counter * (num_categories + 1) + cat) mod (num_categories + 1) = cat];
    and so, whatever the counter is when the encoder is called, the ids it
    hands out for the instances of a frame decode to the instances'
    categories. *)
Theorem decode_recovers_category COCO_INFO f num_points filter_cats count cat :
  (0 <= cat <= num_cat COCO_INFO - 1 ->
   decode (num_cat COCO_INFO) (encode (num_cat COCO_INFO) count cat) = cat)
  /\ (cats_within COCO_INFO 0 (num_cat COCO_INFO - 1) ->
      map (fun o => decode (num_cat COCO_INFO) (obj_id o))
          (fst (get_each_obj COCO_INFO f num_points filter_cats count))
      = instance_categories COCO_INFO f filter_cats).
Proof.
  split.
  - intros H. apply decode_encode. lia.
  - intros H. unfold get_each_obj, instance_categories.
    apply objs_of_anns_decode.
    eapply List.Forall_impl; [|apply cats_within_loadAnns, H].
    simpl. intros a Ha. lia.
Qed.

End Encoder.

(** ** Clip Planner, fixed-length mode *)

Section FixedLength.
Context {U : Utils}.
Implicit Types (COCO_INFO : Coco) (frames : list Frame) (r : ClipRange).

Lemma range0_pos stop step :
  1 <= step -> 0 <= stop ->
  range0 stop step
  = Ok (map (fun k => Z.of_nat k * step)
            (seq 0 (if 0 <? stop then S (Z.to_nat ((stop - 1) / step)) else 0%nat))).
Proof.
  intros Hs Hn. unfold range0, range_len.
  destruct (Z.eqb_spec step 0); [lia|].
  destruct (Z.ltb_spec 0 step); [|lia].
  destruct (Z.ltb_spec 0 stop); [|reflexivity].
  assert (0 <= (stop - 1) / step) by (apply Z.div_pos; lia).
  do 3 f_equal. lia.
Qed.

(** The ranges that start at the multiples [j*L, (j+1)*L, ..] of the clip
    length, up to the last one, tile from [j*L] on. *)
Lemma tiles_from_starts n L (q : nat) :
  1 <= L -> Z.of_nat q * L <= n - 1 < (Z.of_nat q + 1) * L ->
  forall m j, (j + m = S q)%nat -> (1 <= m)%nat ->
  tiles_from (Z.of_nat j * L) (n - 1)
    (map (clip_range_at n L) (map (fun k => Z.of_nat k * L) (seq j m))) = true.
Proof.
  intros HL Hq. induction m as [|m IH]; intros j Hj Hm; [lia|].
  simpl. rewrite Z.eqb_refl. simpl.
  destruct m as [|m].
  - assert (j = q) as -> by lia. simpl.
    replace (Z.min (Z.of_nat q * L + L - 1) (n - 1)) with (n - 1) by lia.
    apply andb_true_intro. split; [apply Z.leb_le; lia | apply Z.eqb_refl].
  - assert (Z.of_nat j * L + L <= Z.of_nat q * L) by nia.
    replace (Z.min (Z.of_nat j * L + L - 1) (n - 1)) with (Z.of_nat j * L + L - 1) by lia.
    apply andb_true_intro. split; [apply Z.leb_le; lia|].
    replace (Z.of_nat j * L + L - 1 + 1) with (Z.of_nat (S j) * L) by lia.
    apply IH; lia.
Qed.

Lemma clip_ranges_tile n L :
  1 <= L -> 0 <= n ->
  exists rs, clip_ranges n L = Ok rs /\ tiles n rs = true.
Proof.
  intros HL Hn. unfold clip_ranges. rewrite range0_pos by assumption. simpl.
  eexists. split; [reflexivity|]. unfold tiles.
  destruct (Z.ltb_spec 0 n) as [Hpos|Hz].
  - assert (0 <= (n - 1) / L) as Hq by (apply Z.div_pos; lia).
    pose proof (Z.div_mod (n - 1) L ltac:(lia)) as Hdm.
    pose proof (Z.mod_pos_bound (n - 1) L ltac:(lia)) as Hmb.
    apply (tiles_from_starts n L (Z.to_nat ((n - 1) / L)) HL) with (j := 0%nat);
      [|lia|lia].
    rewrite Z2Nat.id by assumption. nia.
  - assert (n = 0) as -> by lia. reflexivity.
Qed.

(** A frame ordinal lies in at most one of the enumerated ranges. *)
Lemma clip_ranges_disjoint n L rs r r' f :
  clip_ranges n L = Ok rs ->
  In r rs -> In r' rs -> covers r f -> covers r' f -> r = r'.
Proof.
  unfold clip_ranges, range0.
  destruct (Z.eqb_spec L 0) as [|HL]; [discriminate|]. simpl. intros [= <-].
  rewrite map_map, !in_map_iff.
  intros (k & <- & Hk) (k' & <- & Hk') [H1 H2] [H3 H4]. simpl in *.
  clear Hk Hk'.
  (* a range is not empty only for a positive clip length *)
  assert (0 < L) as Hpos by lia.
  assert (Z.of_nat k = Z.of_nat k') as E by nia.
  now rewrite E.
Qed.

Lemma clip_ranges_bounds n L rs r :
  clip_ranges n L = Ok rs -> 0 <= n -> In r rs ->
  0 <= start_idx r <= end_idx r /\ end_idx r <= n - 1.
Proof.
  unfold clip_ranges, range0.
  destruct (Z.eqb_spec L 0) as [|HL]; [discriminate|]. simpl. intros [= <-] Hn.
  rewrite map_map, in_map_iff. intros (k & <- & Hk). simpl.
  apply in_seq in Hk. unfold range_len in Hk.
  destruct (Z.ltb_spec 0 L) as [Hpos|Hneg].
  - destruct (Z.ltb_spec 0 n) as [Hn'|]; [|simpl in Hk; lia].
    assert (0 <= (n - 1) / L) as Hq by (apply Z.div_pos; lia).
    pose proof (Z.div_mod (n - 1) L ltac:(lia)) as Hdm.
    pose proof (Z.mod_pos_bound (n - 1) L ltac:(lia)) as Hmb.
    assert (Z.of_nat k <= (n - 1) / L) by lia.
    assert (Z.of_nat k * L <= n - 1) by nia.
    lia.
  - destruct (Z.ltb_spec n 0); [lia | simpl in Hk; lia].
Qed.

(** The enumerated ranges are the windows [kL .. min((k+1)L - 1, n - 1)]. *)
Lemma clip_ranges_windows n L rs r :
  clip_ranges n L = Ok rs -> In r rs ->
  exists k, 0 <= k /\ start_idx r = k * L
            /\ end_idx r = Z.min ((k + 1) * L - 1) (n - 1).
Proof.
  unfold clip_ranges, range0.
  destruct (Z.eqb_spec L 0) as [|HL]; [discriminate|]. simpl. intros [= <-].
  rewrite map_map, in_map_iff. intros (k & <- & _). simpl.
  exists (Z.of_nat k). split; [lia|]. split; [reflexivity|]. f_equal. lia.
Qed.

Lemma plan_clips_yielded COCO_INFO frames ptype ranges count :
  map snd (yielded (fst (plan_clips COCO_INFO frames ptype ranges count)))
  = List.filter (has_prompt COCO_INFO frames) ranges.
Proof.
  revert count. induction ranges as [|r ranges IH]; intros count; simpl.
  - reflexivity.
  - unfold has_prompt at 1.
    destruct (find_prompt_frame COCO_INFO frames r) as [pf|].
    + destruct (get_each_obj COCO_INFO pf 1 None count) as [objs c].
      specialize (IH c).
      destruct (plan_clips COCO_INFO frames ptype ranges c) as [evs c'].
      simpl in *. now rewrite IH.
    + specialize (IH count).
      destruct (plan_clips COCO_INFO frames ptype ranges count) as [evs c'].
      simpl in *. exact IH.
Qed.

Lemma plan_clips_warned COCO_INFO frames ptype ranges count :
  warned (fst (plan_clips COCO_INFO frames ptype ranges count))
  = List.filter (fun r => negb (has_prompt COCO_INFO frames r)) ranges.
Proof.
  revert count. induction ranges as [|r ranges IH]; intros count; simpl.
  - reflexivity.
  - unfold has_prompt at 1.
    destruct (find_prompt_frame COCO_INFO frames r) as [pf|].
    + destruct (get_each_obj COCO_INFO pf 1 None count) as [objs c].
      specialize (IH c).
      destruct (plan_clips COCO_INFO frames ptype ranges c) as [evs c'].
      simpl in *. exact IH.
    + specialize (IH count).
      destruct (plan_clips COCO_INFO frames ptype ranges count) as [evs c'].
      simpl in *. now rewrite IH.
Qed.

Lemma plan_clips_numbered COCO_INFO frames ptype ranges count :
  cats_within COCO_INFO 0 (num_cat COCO_INFO) ->
  numbered (num_cat COCO_INFO) count
    (snd (plan_clips COCO_INFO frames ptype ranges count))
    (all_objs (yielded (fst (plan_clips COCO_INFO frames ptype ranges count)))).
Proof.
  intros Hc. revert count.
  induction ranges as [|r ranges IH]; intros count; simpl.
  - apply numbered_nil.
  - destruct (find_prompt_frame COCO_INFO frames r) as [pf|].
    + pose proof (get_each_obj_numbered COCO_INFO pf 1 None count Hc) as H1.
      destruct (get_each_obj COCO_INFO pf 1 None count) as [objs c].
      specialize (IH c).
      destruct (plan_clips COCO_INFO frames ptype ranges c) as [evs c'].
      simpl in *. rewrite app_nil_r.
      eapply numbered_app; eassumption.
    + specialize (IH count).
      destruct (plan_clips COCO_INFO frames ptype ranges count) as [evs c'].
      simpl in *. exact IH.
Qed.

Lemma filter_all {A : Type} (p : A -> bool) (l : list A) :
  forallb p l = true -> List.filter p l = l.
Proof.
  induction l as [|x l IH]; simpl; [reflexivity|].
  intros H. apply andb_prop in H as [-> H]. now rewrite IH.
Qed.

End FixedLength.

(** ** Clip Planner, category-growth mode *)

Section CategoryGrowth.
Context {U : Utils}.
Implicit Types (COCO_INFO : Coco) (frames : list Frame) (st : cat_state).

Lemma cat_loop_step COCO_INFO f frames st :
  cat_loop COCO_INFO (f :: frames) st =
  if opens COCO_INFO (existing_cats st) f then
    match previous st with
    | None => cat_loop COCO_INFO frames (opened COCO_INFO st f)
    | Some _ => Raise TypeError
    end
  else cat_loop COCO_INFO frames st.
Proof.
  unfold opens, opened. simpl.
  destruct (is_det_keyframe f); simpl; [|reflexivity].
  destruct (bool_decide (get_num_categories COCO_INFO f ⊆ existing_cats st));
    simpl; [reflexivity|].
  destruct (get_each_obj COCO_INFO f 1 None (cat_count st)) as [objs c].
  reflexivity.
Qed.

Lemma introducing_step COCO_INFO f frames (seen : gset Z) :
  introducing COCO_INFO (f :: frames) seen =
  if opens COCO_INFO seen f then
    f :: introducing COCO_INFO frames
           (seen ∪ (get_num_categories COCO_INFO f ∖ seen))
  else introducing COCO_INFO frames seen.
Proof.
  unfold opens. simpl.
  replace (seen ∪ get_num_categories COCO_INFO f ∖ seen)
    with (seen ∪ get_num_categories COCO_INFO f); [reflexivity|].
  rewrite (union_comm_L seen (_ ∖ _)), difference_union_L.
  apply union_comm_L.
Qed.

(** No keyframe introduces a category: the loop changes nothing. *)
Lemma cat_loop_none COCO_INFO frames st :
  introducing COCO_INFO frames (existing_cats st) = [] ->
  cat_loop COCO_INFO frames st = Ok st.
Proof.
  revert st. induction frames as [|f frames IH]; intros st; [reflexivity|].
  rewrite cat_loop_step, introducing_step.
  destruct (opens COCO_INFO (existing_cats st) f); [discriminate | apply IH].
Qed.

(** With a clip already open, the next introducing keyframe reaches the
    two-argument [append]. *)
Lemma cat_loop_second COCO_INFO frames st :
  previous st <> None ->
  introducing COCO_INFO frames (existing_cats st) <> [] ->
  cat_loop COCO_INFO frames st = Raise TypeError.
Proof.
  intros Hp. induction frames as [|f frames IH]; [intros H; now destruct H|].
  rewrite cat_loop_step, introducing_step.
  destruct (opens COCO_INFO (existing_cats st) f).
  - intros _. destruct (previous st); [reflexivity | congruence].
  - exact IH.
Qed.

Lemma cat_loop_two COCO_INFO frames st :
  previous st = None ->
  (2 <= length (introducing COCO_INFO frames (existing_cats st)))%nat ->
  cat_loop COCO_INFO frames st = Raise TypeError.
Proof.
  revert st. induction frames as [|f frames IH]; intros st Hp; [simpl; lia|].
  rewrite cat_loop_step, introducing_step.
  destruct (opens COCO_INFO (existing_cats st) f).
  - rewrite Hp. simpl. intros Hlen.
    apply cat_loop_second; [discriminate|].
    simpl. destruct (introducing _ _ _); [simpl in Hlen; lia | discriminate].
  - now apply IH.
Qed.

Lemma cat_loop_one COCO_INFO frames st f :
  previous st = None ->
  introducing COCO_INFO frames (existing_cats st) = [f] ->
  cat_loop COCO_INFO frames st = Ok (opened COCO_INFO st f).
Proof.
  revert st. induction frames as [|g frames IH]; intros st Hp; [discriminate|].
  rewrite cat_loop_step, introducing_step.
  destruct (opens COCO_INFO (existing_cats st) g).
  - rewrite Hp. intros [= -> Hrest]. now apply cat_loop_none.
  - now apply IH.
Qed.

(** The category-growth planner, by the number of introducing keyframes. *)
Lemma get_prompts_from_categories_cases COCO_INFO frames count :
  get_prompts_from_categories COCO_INFO frames count =
  match introducing COCO_INFO frames ∅ with
  | [] => Ok ([NoneClip (Z.of_nat (length frames) - 1)], count)
  | [f] =>
      let objs := get_each_obj COCO_INFO f 1 None count in
      Ok (if order_in_video f =? Z.of_nat (length frames) - 1 then []
          else [Clip [prompt_info_at f (fst objs) "points"]
                     {| start_idx := order_in_video f;
                        end_idx := Z.of_nat (length frames) - 1 |}],
          snd objs)
  | _ :: _ :: _ => Raise TypeError
  end.
Proof.
  unfold get_prompts_from_categories.
  set (st0 := {| existing_cats := ∅; previous := None; cat_count := count |}).
  change (introducing COCO_INFO frames ∅)
    with (introducing COCO_INFO frames (existing_cats st0)).
  destruct (introducing COCO_INFO frames (existing_cats st0))
    as [|f [|g l]] eqn:Hi.
  - rewrite cat_loop_none by assumption. reflexivity.
  - rewrite (cat_loop_one _ _ _ f) by (assumption || reflexivity). reflexivity.
  - rewrite cat_loop_two; [reflexivity | reflexivity |].
    rewrite Hi. simpl. lia.
Qed.

End CategoryGrowth.

(** ** Clip Processor *)

Section ClipProcessor.
Context {U : Utils} {M : Sam2}.
Implicit Types (vs : VideoSegment) (s : inference_state).

Lemma frame_segments_other i ids logits acc seg oid :
  frame_segments i ids logits acc = Ok seg -> ~ In oid ids ->
  dict_get oid seg = dict_get oid acc.
Proof.
  revert i acc. induction ids as [|x ids IH]; intros i acc; simpl.
  - now intros [= ->].
  - destruct (nth_error logits i) as [lg|]; [|discriminate].
    intros H Hn. rewrite (IH _ _ H) by tauto.
    apply dict_get_set_ne. tauto.
Qed.

(** The entry of an object id is built from the logit at the id's position
    in [out_obj_ids]. *)
Lemma frame_segments_at i ids logits acc seg j oid :
  frame_segments i ids logits acc = Ok seg -> List.NoDup ids ->
  nth_error ids j = Some oid ->
  exists lg, nth_error logits (i + j) = Some lg
             /\ dict_get oid seg
                = Some {| mask := mask_of_logit lg; score := score_of_logit lg |}.
Proof.
  revert i acc j. induction ids as [|x ids IH]; intros i acc j; simpl.
  - destruct j; discriminate.
  - destruct (nth_error logits i) as [lg|] eqn:Hlg; [|discriminate].
    intros H Hnd Hj. inversion Hnd as [|? ? Hx Hnd']; subst.
    destruct j as [|j]; simpl in Hj.
    + injection Hj as ->. exists lg. rewrite Nat.add_0_r. split; [assumption|].
      rewrite (frame_segments_other _ _ _ _ _ _ H Hx).
      apply dict_get_set_eq.
    + destruct (IH _ _ _ H Hnd' Hj) as (lg' & Hl' & Hg).
      exists lg'. split; [|assumption].
      now replace (i + S j)%nat with (S i + j)%nat by lia.
Qed.

Lemma write_pass_keys outs start vs vs' k :
  write_pass outs start vs = Ok vs' ->
  In k (keys vs') ->
  In k (keys vs) \/ exists o, In o outs /\ k = out_frame o + start.
Proof.
  revert vs. induction outs as [|[[fi ids] lg] outs IH]; intros vs; simpl.
  - intros [= ->]. tauto.
  - destruct (frame_segments 0 ids lg []) as [seg|]; [|discriminate]. simpl.
    intros H Hk. destruct (IH _ H Hk) as [Hin|(o & Ho & ->)].
    + apply keys_dict_set in Hin as [->|Hin]; [|tauto].
      right. exists (fi, ids, lg). split; [now left | reflexivity].
    + right. exists o. split; [now right | reflexivity].
Qed.

Lemma write_pass_keys_back outs start vs vs' k :
  write_pass outs start vs = Ok vs' ->
  In k (keys vs) \/ (exists o, In o outs /\ k = out_frame o + start) ->
  In k (keys vs').
Proof.
  revert vs. induction outs as [|[[fi ids] lg] outs IH]; intros vs; simpl.
  - intros [= ->] [H|(o & [] & _)]. exact H.
  - destruct (frame_segments 0 ids lg []) as [seg|]; [|discriminate]. simpl.
    intros H Hk. apply (IH _ H).
    destruct Hk as [Hk|(o & [<-|Ho] & ->)].
    + left. apply keys_dict_set. now right.
    + left. apply keys_dict_set. now left.
    + right. now exists o.
Qed.

Lemma write_pass_untouched outs start vs vs' fi :
  write_pass outs start vs = Ok vs' ->
  ~ In fi (map out_frame outs) ->
  dict_get (fi + start) vs' = dict_get (fi + start) vs.
Proof.
  revert vs. induction outs as [|[[fi1 ids1] lg1] outs IH]; intros vs; simpl.
  - now intros [= ->].
  - destruct (frame_segments 0 ids1 lg1 []) as [seg1|]; [|discriminate]. simpl.
    intros H Hn. unfold out_frame in Hn at 1. simpl in Hn.
    rewrite (IH _ H) by tauto.
    apply dict_get_set_ne. intros E. apply Hn. left. lia.
Qed.

Lemma write_pass_app a b start vs :
  write_pass (a ++ b) start vs
  = (vs1 <- write_pass a start vs ;; write_pass b start vs1).
Proof.
  revert vs. induction a as [|[[fi ids] lg] a IH]; intros vs; simpl.
  - reflexivity.
  - destruct (frame_segments 0 ids lg []) as [seg|]; [|reflexivity]. simpl.
    apply IH.
Qed.

Lemma add_one_paths obj fidx ptype st :
  video_paths (fst (add_one obj fidx ptype st)) = video_paths (fst st).
Proof.
  destruct st as [s b]. unfold add_one.
  repeat match goal with |- context [if ?c then _ else _] => destruct c end;
    reflexivity.
Qed.

Lemma add_prompt_paths objs s fidx ptype s' :
  add_prompt objs s fidx ptype = Ok s' -> video_paths s' = video_paths s.
Proof.
  unfold add_prompt.
  assert (forall st,
            video_paths (fst (fold_left (fun st obj => add_one obj fidx ptype st)
                                        objs st)) = video_paths (fst st)) as H.
  { induction objs as [|o objs IH]; intros st; simpl; [reflexivity|].
    now rewrite IH, add_one_paths. }
  specialize (H (s, false)).
  destruct (fold_left _ objs (s, false)) as [s1 b]. simpl in H.
  destruct b; [|discriminate]. now intros [= <-].
Qed.

Lemma add_prompts_paths clip_prompts start s s' :
  add_prompts clip_prompts start s = Ok s' -> video_paths s' = video_paths s.
Proof.
  revert s. induction clip_prompts as [|p ps IH]; intros s; simpl.
  - now intros [= <-].
  - destruct (add_prompt _ s _ _) as [s1|] eqn:E; [|discriminate]. simpl.
    intros H. rewrite (IH _ H). eapply add_prompt_paths, E.
Qed.

Lemma length_slice {A : Type} (l : list A) lo hi :
  0 <= lo -> lo <= hi -> hi <= Z.of_nat (length l) ->
  Z.of_nat (length (slice l lo hi)) = hi - lo.
Proof.
  intros H1 H2 H3. unfold slice, clamp.
  destruct (Z.ltb_spec lo 0); [lia|]. destruct (Z.ltb_spec hi 0); [lia|].
  rewrite length_firstn, length_skipn. lia.
Qed.

(** Under the predictor's contract a clip's segments only have frames of the
    clip's own range. *)
Lemma process_video_clip_keys frames clip_prompts r segs k :
  predictor_in_range ->
  range_inside (Z.of_nat (length frames)) r ->
  process_video_clip frames clip_prompts r = Ok segs ->
  In k (keys segs) -> covers r k.
Proof.
  intros Hp (H0 & H1 & H2). unfold process_video_clip.
  destruct (add_prompts _ _ _) as [s|] eqn:Hs; [|discriminate]. simpl.
  apply add_prompts_paths in Hs. simpl in Hs.
  unfold predict_on_video.
  destruct (write_pass (propagate_in_video s true) _ _) as [vs1|] eqn:E1;
    [|discriminate]. simpl.
  intros E2 Hk.
  assert (exists o rev, In o (propagate_in_video s rev)
                        /\ k = out_frame o + start_idx r) as (o & rev & Ho & ->).
  { destruct (write_pass_keys _ _ _ _ _ E2 Hk) as [Hin|(o & Ho & ->)].
    - destruct (write_pass_keys _ _ _ _ _ E1 Hin) as [[]|(o & Ho & ->)].
      now exists o, true.
    - now exists o, false. }
  apply Hp in Ho. rewrite Hs, length_map in Ho.
  rewrite length_slice in Ho by lia. unfold covers. lia.
Qed.

(** A pass leaves at each frame the output of its last turn for that frame. *)
Lemma write_pass_last start vs vs' before fi ids lg after :
  write_pass (before ++ (fi, ids, lg) :: after) start vs = Ok vs' ->
  ~ In fi (map out_frame after) ->
  exists seg, frame_segments 0 ids lg [] = Ok seg
              /\ dict_get (fi + start) vs' = Some seg.
Proof.
  rewrite write_pass_app.
  destruct (write_pass before start vs) as [vs1|]; [|discriminate]. simpl.
  destruct (frame_segments 0 ids lg []) as [seg|]; [|discriminate]. simpl.
  intros H Hn. exists seg. split; [reflexivity|].
  rewrite (write_pass_untouched _ _ _ _ _ H Hn). apply dict_get_set_eq.
Qed.

(** C6.  In the bidirectional propagation the reverse pass is written
    first, into the empty map, and the forward pass second, into the map
    that the reverse pass left.  So at any frame that the forward pass
    produces (the prompt anchor among them) the clip's result holds the
    forward pass's output, whatever the reverse pass wrote there: for every
    object id of that output, the mask and the score are those of the
    forward logit at the id's position.  What the reverse pass wrote is
    there before the forward pass runs; its frames are frames of the result,
    and they keep the reverse pass's output wherever the forward pass
    produces nothing. *)
Theorem forward_pass_wins s start vs before fi ids lg after :
  predict_on_video s start = Ok vs ->
  propagate_in_video s false = before ++ (fi, ids, lg) :: after ->
  ~ In fi (map out_frame after) ->
  (exists seg,
    frame_segments 0 ids lg [] = Ok seg
    /\ dict_get (fi + start) vs = Some seg
    /\ forall j oid, List.NoDup ids -> nth_error ids j = Some oid ->
         exists l, nth_error lg j = Some l
                   /\ dict_get oid seg
                      = Some {| mask := mask_of_logit l; score := score_of_logit l |})
  /\ (exists vs_rev,
        write_pass (propagate_in_video s true) start [] = Ok vs_rev
        /\ write_pass (propagate_in_video s false) start vs_rev = Ok vs
        /\ forall before_r fr ids_r lg_r after_r,
             propagate_in_video s true
             = before_r ++ (fr, ids_r, lg_r) :: after_r ->
             ~ In fr (map out_frame after_r) ->
             exists seg_r,
               frame_segments 0 ids_r lg_r [] = Ok seg_r
               /\ dict_get (fr + start) vs_rev = Some seg_r
               /\ In (fr + start) (keys vs)
               /\ (~ In fr (map out_frame (propagate_in_video s false)) ->
                   dict_get (fr + start) vs = Some seg_r)).
Proof.
  unfold predict_on_video. intros H Hf Hn.
  destruct (write_pass (propagate_in_video s true) start []) as [vs1|] eqn:E1;
    [|discriminate]. simpl in H. split.
  - rewrite Hf in H.
    destruct (write_pass_last _ _ _ _ _ _ _ _ H Hn) as (seg & Hseg & Hget).
    exists seg. repeat split; [assumption | assumption |].
    intros j oid Hnd Hj.
    destruct (frame_segments_at _ _ _ _ _ _ _ Hseg Hnd Hj) as (l & Hl & Hg).
    exists l. now split.
  - exists vs1. split; [reflexivity|]. split; [exact H|].
    intros before_r fr ids_r lg_r after_r Hr Hnr.
    pose proof E1 as E1'. rewrite Hr in E1'.
    destruct (write_pass_last _ _ _ _ _ _ _ _ E1' Hnr) as (seg_r & Hseg & Hget).
    exists seg_r. split; [exact Hseg|]. split; [exact Hget|]. split.
    + apply (write_pass_keys_back _ _ _ _ _ H). left.
      apply (write_pass_keys_back _ _ _ _ _ E1). right.
      exists (fr, ids_r, lg_r). split; [|reflexivity].
      rewrite Hr. apply in_or_app. right. now left.
    + intros Hnf. now rewrite (write_pass_untouched _ _ _ _ _ H Hnf).
Qed.

End ClipProcessor.

(** ** Planner theorems *)

Section PlannerTheorems.
Context {U : Utils}.
Implicit Types (COCO_INFO : Coco) (frames : list Frame).

(** C1 (amended).  With a clip length [L] of at least one frame, the clip
    ranges that the fixed-length planner enumerates, the windows
    [kL .. min((k+1)L - 1, N-1)], tile [0 .. N-1] exactly, and
    the ranges it emits are those of them that hold an annotated keyframe
    (a keyframe of the frame list with annotations whose ordinal [o] has
    [start_idx <= o <= end_idx]), in the same order; so the emitted ranges
    tile [0 .. N-1] when every enumerated range holds one.  In category-growth mode a video with a single introducing
    keyframe, at ordinal [p], gets the single range [p .. N-1], and no range
    when [p = N-1]. *)
Theorem planner_ranges COCO_INFO frames ptype clip_length count :
  let n := Z.of_nat (length frames) in
  let L := match clip_length with Some l => l | None => n end in
  1 <= L ->
  (exists candidates evs count',
      clip_ranges n L = Ok candidates
      /\ (forall r, In r candidates ->
            exists k, 0 <= k /\ start_idx r = k * L
                      /\ end_idx r = Z.min ((k + 1) * L - 1) (n - 1))
      /\ tiles n candidates = true
      /\ get_clip_prompts COCO_INFO frames ptype clip_length count = Ok (evs, count')
      /\ map snd (yielded evs)
         = List.filter (holds_annotated_keyframe COCO_INFO frames) candidates
      /\ (forallb (holds_annotated_keyframe COCO_INFO frames) candidates = true ->
          tiles n (map snd (yielded evs)) = true))
  /\ (forall f, introducing COCO_INFO frames ∅ = [f] ->
      exists plan count',
        get_prompts_from_categories COCO_INFO frames count = Ok (plan, count')
        /\ flat_map entry_ranges plan
           = if order_in_video f =? n - 1 then []
             else [{| start_idx := order_in_video f; end_idx := n - 1 |}]).
Proof.
  intros n L HL. split.
  - destruct (clip_ranges_tile n L HL ltac:(lia)) as (rs & Hrs & Ht).
    exists rs, (fst (plan_clips COCO_INFO frames ptype rs count)),
           (snd (plan_clips COCO_INFO frames ptype rs count)).
    assert (Hy := plan_clips_yielded COCO_INFO frames ptype rs count).
    rewrite filter_has_prompt in Hy.
    split; [assumption|].
    split; [intros r Hr; eapply clip_ranges_windows; eassumption|].
    repeat split; try assumption.
    + unfold get_clip_prompts. fold n. fold L. rewrite Hrs. simpl.
      now destruct (plan_clips COCO_INFO frames ptype rs count).
    + intros Hall. rewrite Hy, filter_all; assumption.
  - intros f Hf. rewrite get_prompts_from_categories_cases, Hf. simpl.
    eexists _, _. split; [reflexivity|]. fold n.
    now destruct (order_in_video f =? n - 1).
Qed.

(** C5.  Within a video, whose planner starts from a counter of zero, the
    object ids that the encoder hands out are pairwise distinct, in either
    planning mode, when the category ids lie in [0 .. num_categories]. *)
Theorem obj_ids_pairwise_distinct COCO_INFO frames ptype clip_length :
  cats_within COCO_INFO 0 (num_cat COCO_INFO) ->
  (forall evs count,
      get_clip_prompts COCO_INFO frames ptype clip_length 0 = Ok (evs, count) ->
      List.NoDup (map obj_id (all_objs (yielded evs))))
  /\ (forall plan count,
      get_prompts_from_categories COCO_INFO frames 0 = Ok (plan, count) ->
      List.NoDup (map obj_id (flat_map entry_objs plan))).
Proof.
  intros Hc. split.
  - intros evs count. unfold get_clip_prompts.
    destruct (clip_ranges _ _) as [rs|]; [|discriminate]. simpl.
    intros [= E].
    pose proof (plan_clips_numbered COCO_INFO frames ptype rs 0 Hc) as Hn.
    rewrite E in Hn. eapply numbered_NoDup, Hn.
  - intros plan count. rewrite get_prompts_from_categories_cases.
    destruct (introducing COCO_INFO frames ∅) as [|f [|g l]]; [| |discriminate].
    + intros [= <- _]. constructor.
    + simpl. intros [= <- _].
      destruct (order_in_video f =? _); [constructor|].
      simpl. rewrite !app_nil_r.
      eapply numbered_NoDup, get_each_obj_numbered, Hc.
Qed.

End PlannerTheorems.

(** ** Video Orchestrator *)

Section Orchestrator.
Context {U : Utils} {M : Sam2}.
Implicit Types (COCO_INFO : Coco) (frames : list Frame) (st : orch_state).

Lemma run_clips_app frames ptype variable_cats a b st :
  run_clips frames ptype variable_cats (a ++ b) st
  = (st1 <- run_clips frames ptype variable_cats a st ;;
     run_clips frames ptype variable_cats b st1).
Proof.
  revert st. induction a as [|e a IH]; intros st; simpl; [reflexivity|].
  destruct (clip_turn frames ptype variable_cats st e); simpl;
    [apply IH | reflexivity].
Qed.

Lemma get_obj_from_masks_carried (seg : dict SegInfo) objs :
  get_obj_from_masks seg = Ok objs -> objs = carried_objs seg.
Proof.
  revert objs. induction seg as [|[oid info] seg IH]; intros objs; simpl.
  - now intros [= <-].
  - destruct (sum3 (mask info) =? 0); [apply IH|].
    unfold components_of, squeeze0.
    destruct (mask info) as [|c [|c' m]]; try discriminate. simpl.
    destruct (get_obj_from_masks seg) as [objs'|]; [|discriminate]. simpl.
    intros [= <-]. now rewrite (IH objs').
Qed.

(** In a fixed-length run every frame of the result comes from a processed
    clip and lies in that clip's range. *)
Lemma run_clips_keys frames ptype plan st st' k :
  predictor_in_range ->
  (forall ps r, In (Clip ps r) plan -> range_inside (Z.of_nat (length frames)) r) ->
  run_clips frames ptype false plan st = Ok st' ->
  In k (keys (video_segments st')) ->
  In k (keys (video_segments st))
  \/ exists ps r, In (Clip ps r) plan /\ covers r k.
Proof.
  intros Hp. revert st. induction plan as [|e plan IH]; intros st Hin; simpl.
  - intros [= <-]. tauto.
  - destruct e as [ps r|last]; simpl; [|discriminate].
    destruct (process_video_clip frames ps r) as [segs|] eqn:Hs; [|discriminate].
    simpl. intros H Hk.
    destruct (IH _ (fun ps' r' Hi => Hin ps' r' (or_intror Hi)) H Hk)
      as [Hk'|(ps' & r' & Hi & Hc)].
    + simpl in Hk'. apply keys_dict_update in Hk' as [Hk'|Hk']; [tauto|].
      right. exists ps, r. split; [now left|].
      eapply process_video_clip_keys; eauto. apply (Hin ps r). now left.
    + right. exists ps', r'. split; [now right | assumption].
Qed.

Lemma entries_In evs ps r :
  In (Clip ps r) (entries evs) -> In (ps, r) (yielded evs).
Proof.
  unfold entries. rewrite in_map_iff. intros ([ps' r'] & [= -> ->] & H).
  exact H.
Qed.

(** C9.  In category-growth mode, when at least two keyframes introduce new
    categories, closing the first clip calls [list.append] with two
    arguments: the planner raises [TypeError], and with it the processing of
    the video. *)
Theorem category_growth_append_raises COCO_INFO frames :
  (2 <= length (introducing COCO_INFO frames ∅))%nat ->
  (forall count,
      get_prompts_from_categories COCO_INFO frames count = Raise TypeError)
  /\ (forall ptype clip_length log,
      process_singel_video COCO_INFO frames ptype clip_length true log
      = Raise TypeError).
Proof.
  intros Hlen.
  assert (forall count,
             get_prompts_from_categories COCO_INFO frames count = Raise TypeError)
    as H.
  { intros count. rewrite get_prompts_from_categories_cases.
    destruct (introducing COCO_INFO frames ∅) as [|f [|g l]];
      [simpl in Hlen; lia | simpl in Hlen; lia | reflexivity]. }
  split; [exact H|].
  intros ptype clip_length log. unfold process_singel_video. now rewrite H.
Qed.

(** C7.  In fixed-length mode, a clip range without an annotated keyframe is
    warned about and not yielded, so it is never handed to the Clip
    Processor; and, the predictor only producing frames of the clip it was
    given, the video's result has no entry at any frame ordinal of that
    range. *)
Theorem skipped_clip_leaves_no_frames COCO_INFO frames ptype clip_length log
    candidates r :
  predictor_in_range ->
  clip_ranges (Z.of_nat (length frames))
    (match clip_length with Some l => l | None => Z.of_nat (length frames) end)
  = Ok candidates ->
  In r candidates ->
  (forall g, In g frames -> qualifies COCO_INFO r g = false) ->
  exists evs count,
    get_clip_prompts COCO_INFO frames ptype clip_length 0 = Ok (evs, count)
    /\ In r (warned evs)
    /\ ~ In r (map snd (yielded evs))
    /\ ~ (exists ps, In (Clip ps r) (entries evs))
    /\ forall vs log' count',
         process_singel_video COCO_INFO frames ptype clip_length false log
         = Ok (vs, log', count') ->
         forall f, covers r f -> dict_get f vs = None.
Proof.
  intros Hp Hrs Hr Hq.
  assert (Hnone : has_prompt COCO_INFO frames r = false).
  { unfold has_prompt.
    replace (find_prompt_frame COCO_INFO frames r) with (@None Frame);
      [reflexivity|].
    symmetry. apply find_prompt_frame_None. now apply List.Forall_forall. }
  set (pc := plan_clips COCO_INFO frames ptype candidates 0).
  assert (Hg : get_clip_prompts COCO_INFO frames ptype clip_length 0
               = Ok (fst pc, snd pc)).
  { unfold get_clip_prompts. rewrite Hrs. simpl. fold pc. now destruct pc. }
  assert (Hy : ~ In r (map snd (yielded (fst pc)))).
  { unfold pc. rewrite plan_clips_yielded, filter_In. intros [_ E]. congruence. }
  exists (fst pc), (snd pc). repeat split; try assumption.
  - unfold pc. rewrite plan_clips_warned. apply filter_In.
    split; [assumption | now rewrite Hnone].
  - intros (ps & Hin). apply Hy. apply entries_In in Hin.
    apply in_map_iff. now exists (ps, r).
  - intros vs log' count'. unfold process_singel_video. rewrite Hg. simpl.
    destruct (run_clips _ _ _ _ _) as [st|] eqn:Hrun; [|discriminate]. simpl.
    intros [= <- _ _] f Hf.
    apply dict_get_None. intros Hk.
    eapply run_clips_keys in Hk; [| exact Hp | | exact Hrun].
    + destruct Hk as [[]|(ps & r' & Hin & Hc)].
      apply entries_In in Hin.
      assert (In r' (map snd (yielded (fst pc)))) as Hr'
          by (apply in_map_iff; now exists (ps, r')).
      unfold pc in Hr'. rewrite plan_clips_yielded in Hr'.
      apply filter_In in Hr' as [Hr' Hhas].
      assert (r = r') by (eapply clip_ranges_disjoint; eauto).
      congruence.
    + intros ps r' Hin. apply entries_In in Hin.
      assert (In r' (map snd (yielded (fst pc)))) as Hr'
          by (apply in_map_iff; now exists (ps, r')).
      unfold pc in Hr'. rewrite plan_clips_yielded in Hr'.
      apply filter_In in Hr' as [Hr' _].
      pose proof (clip_ranges_bounds _ _ _ _ Hrs ltac:(lia) Hr').
      unfold range_inside. lia.
Qed.


End Orchestrator.

(** ** Mask Reassembler *)

Section Reassembler.
Context {U : Utils} {M : Sam2}.
Implicit Types (COCO_INFO : Coco) (vs : VideoSegment) (sc : option Score).

Lemma dict_get_Some_In {V : Type} (d : dict V) k v :
  dict_get k d = Some v -> In (k, v) d.
Proof.
  induction d as [|[k0 v0] d IH]; simpl; [discriminate|].
  destruct (Z.eqb_spec k0 k) as [->|Hne].
  - intros [= ->]. now left.
  - intros H. right. now apply IH.
Qed.

Lemma dict_set_Forall {V : Type} (P : Z * V -> Prop) (d : dict V) k v :
  P (k, v) -> Forall P d -> Forall P (dict_set k v d).
Proof.
  intros Hkv H. induction H as [|[k0 v0] d H0 H IH]; simpl.
  - constructor; [assumption | constructor].
  - destruct (k0 =? k); constructor; assumption.
Qed.

Lemma or_pixels_length (a b : mask2) :
  length a = length b -> length (or_pixels a b) = length a.
Proof.
  revert b. induction a as [|x a IH]; intros [|y b]; simpl; try discriminate;
    [reflexivity|].
  intros [= H]. now rewrite IH.
Qed.

(** On two masks of one shape [np.logical_or] is the pixelwise OR. *)
Lemma logical_or_same_shape (a b : mask2) :
  length a = length b -> logical_or a b = Ok (or_pixels a b).
Proof.
  intros H. unfold logical_or. now rewrite H, Nat.eqb_refl.
Qed.

Lemma logical_or_exn (a b : mask2) e :
  logical_or a b = Raise e -> e = ValueError.
Proof.
  unfold logical_or.
  repeat match goal with |- context [if ?c then _ else _] => destruct c end;
    try discriminate.
  now intros [= <-].
Qed.

Lemma merge_turn_inv n_cat (mm mm' : dict mask2) sc sc' key (info : SegInfo) :
  merge_turn n_cat (mm, sc) (key, info) = Ok (mm', sc') ->
  sc' = Some (score info)
  /\ exists m,
       mm' = dict_set (decode n_cat key) m mm
       /\ match dict_get (decode n_cat key) mm with
          | Some old => logical_or old (logical_or_reduce (mask info)) = Ok m
          | None => m = logical_or_reduce (mask info)
          end.
Proof.
  unfold merge_turn.
  destruct (dict_get (decode n_cat key) mm) as [old|].
  - destruct (logical_or old (logical_or_reduce (mask info))) as [m|] eqn:E;
      [|discriminate]. simpl.
    intros [= <- <-]. split; [reflexivity|]. now exists m.
  - intros [= <- <-]. split; [reflexivity|]. now eexists.
Qed.

Lemma merge_turn_exn n_cat (acc : dict mask2 * option Score) item e :
  merge_turn n_cat acc item = Raise e -> e = ValueError.
Proof.
  destruct acc as [mm sc], item as [key info]. unfold merge_turn.
  destruct (dict_get (decode n_cat key) mm) as [old|]; [|discriminate].
  destruct (logical_or old (logical_or_reduce (mask info))) as [m|e'] eqn:E;
    simpl; [discriminate|].
  intros [= <-]. eapply logical_or_exn, E.
Qed.

Lemma merge_loop_exn n_cat (segment : dict SegInfo) acc e :
  merge_loop n_cat segment acc = Raise e -> e = ValueError.
Proof.
  revert acc. induction segment as [|item segment IH]; intros acc; cbn [merge_loop];
    [discriminate|].
  destruct (merge_turn n_cat acc item) as [acc'|e'] eqn:E; cbn [Py.bind]; [apply IH|].
  intros [= <-]. eapply merge_turn_exn, E.
Qed.

(** The merging loop leaves [score] assigned as soon as it ran once, and
    [merged_mask] as it was otherwise. *)
Lemma merge_loop_score n_cat (segment : dict SegInfo) (mm mm' : dict mask2) sc sc' :
  merge_loop n_cat segment (mm, sc) = Ok (mm', sc') ->
  (segment = [] /\ mm' = mm /\ sc' = sc)
  \/ exists a, last segment = Some a /\ sc' = Some (score (snd a)).
Proof.
  revert mm sc. induction segment as [|[key info] segment IH]; intros mm sc; cbn [merge_loop].
  - intros [= <- <-]. now left.
  - destruct (merge_turn n_cat (mm, sc) (key, info)) as [[mm1 sc1]|] eqn:E;
      [|discriminate]. cbn [Py.bind].
    intros H. right. apply merge_turn_inv in E as [-> _].
    destruct (IH _ _ H) as [(-> & _ & ->)|(a & Ha & ->)].
    + now exists (key, info).
    + exists a. split; [|reflexivity]. now destruct segment.
Qed.

Lemma merge_masks_score n_cat (segment : dict SegInfo) sc (mm : dict mask2) sc' :
  merge_masks n_cat segment sc = Ok (mm, sc') ->
  (segment = [] /\ mm = [] /\ sc' = sc)
  \/ exists a, last segment = Some a /\ sc' = Some (score (snd a)).
Proof. apply merge_loop_score. Qed.

Lemma emit_no_exn (frame : Frame) (merged_mask : dict mask2) s :
  exists recs, emit frame merged_mask (Some s) = Ok recs
               /\ Forall (fun r => a_score r = s) recs.
Proof.
  induction merged_mask as [|[key m] mm (recs & IH & Hs)]; simpl.
  - exists []. split; [reflexivity | constructor].
  - destruct (sum2 m =? 0); [now exists recs|].
    rewrite IH. simpl. eexists. split; [reflexivity|].
    constructor; [reflexivity | assumption].
Qed.

Lemma emit_records (frame : Frame) (merged_mask : dict mask2) s :
  emit frame merged_mask (Some s)
  = Ok (map (annotation_of frame s) (List.filter nonempty merged_mask)).
Proof.
  induction merged_mask as [|[key m] mm IH]; simpl; [reflexivity|].
  unfold nonempty at 1. simpl.
  destruct (sum2 m =? 0); simpl; [exact IH|]. now rewrite IH.
Qed.

(** After a merge that went through, the emitting loop cannot fail. *)
Lemma emit_after_merge n_cat (segment : dict SegInfo) sc (frame : Frame)
    (mm : dict mask2) sc' :
  merge_masks n_cat segment sc = Ok (mm, sc') ->
  exists recs, emit frame mm sc' = Ok recs.
Proof.
  intros H. destruct (merge_masks_score _ _ _ _ _ H) as [(_ & -> & _)|(a & _ & ->)].
  - now exists [].
  - rewrite emit_records. eauto.
Qed.

Lemma or_all_raise e (ms : list mask2) :
  fold_left (fun acc x => a <- acc ;; logical_or a x) ms (Raise e) = Raise e.
Proof. induction ms as [|x ms IH]; simpl; [reflexivity | exact IH]. Qed.

Lemma or_all_cons (m0 x : mask2) ms :
  or_all m0 (x :: ms)
  = match logical_or m0 x with
    | Ok m => or_all m ms
    | Raise e => Raise e
    end.
Proof.
  unfold or_all. simpl. destruct (logical_or m0 x); simpl;
    [reflexivity | apply or_all_raise].
Qed.

(** What the merging loop holds for a category when it goes through: the
    OR of what it held before and of the category's instance masks, in
    order. *)
Lemma merge_loop_get n_cat (segment : dict SegInfo) c (mm mm' : dict mask2) sc sc' :
  merge_loop n_cat segment (mm, sc) = Ok (mm', sc') ->
  option_map (@Ok mask2) (dict_get c mm')
  = match dict_get c mm with
    | Some m0 => Some (or_all m0 (instance_masks n_cat c segment))
    | None => union_masks (instance_masks n_cat c segment)
    end.
Proof.
  revert mm sc. induction segment as [|[key info] segment IH]; intros mm sc; cbn [merge_loop].
  - intros [= <- <-]. now destruct (dict_get c mm).
  - destruct (merge_turn n_cat (mm, sc) (key, info)) as [[mm1 sc1]|] eqn:E;
      [|discriminate]. cbn [Py.bind].
    intros H. rewrite (IH _ _ H).
    apply merge_turn_inv in E as (_ & m & -> & Hm).
    unfold instance_masks. simpl.
    destruct (Z.eqb_spec (decode n_cat key) c) as [Heq|Hne].
    + rewrite Heq in *. rewrite dict_get_set_eq. simpl.
      fold (instance_masks n_cat c segment).
      destruct (dict_get c mm) as [old|].
      * now rewrite or_all_cons, Hm.
      * now subst m.
    + rewrite dict_get_set_ne by assumption. reflexivity.
Qed.

Lemma merge_masks_get n_cat (segment : dict SegInfo) c sc (mm : dict mask2) sc' :
  merge_masks n_cat segment sc = Ok (mm, sc') ->
  forall m, dict_get c mm = Some m
            <-> union_masks (instance_masks n_cat c segment) = Some (Ok m).
Proof.
  intros H m. pose proof (merge_loop_get _ _ c _ _ _ _ H) as Hg. simpl in Hg.
  rewrite <- Hg. destruct (dict_get c mm) as [m'|]; simpl.
  - split; intros [= ->]; reflexivity.
  - split; discriminate.
Qed.

Lemma dict_set_NoDup {V : Type} (d : dict V) k v :
  List.NoDup (keys d) -> List.NoDup (keys (dict_set k v d)).
Proof.
  induction d as [|[k0 v0] d IH]; simpl; intros H.
  - constructor; [tauto | constructor].
  - inversion H as [|? ? Hn Hd]; subst.
    destruct (Z.eqb_spec k0 k) as [->|Hne]; simpl.
    + now constructor.
    + constructor; [|now apply IH].
      intros Hin. apply (keys_dict_set d k v k0) in Hin. tauto.
Qed.

Lemma merge_masks_NoDup n_cat (segment : dict SegInfo) sc (mm : dict mask2) sc' :
  merge_masks n_cat segment sc = Ok (mm, sc') -> List.NoDup (keys mm).
Proof.
  unfold merge_masks.
  assert (forall (mm0 : dict mask2) s, List.NoDup (keys mm0) ->
            merge_loop n_cat segment (mm0, s) = Ok (mm, sc') ->
            List.NoDup (keys mm)) as H.
  { induction segment as [|[key info] segment IH]; intros mm0 s Hmm; cbn [merge_loop].
    - now intros [= <- _].
    - destruct (merge_turn n_cat (mm0, s) (key, info)) as [[mm1 sc1]|] eqn:E;
        [|discriminate]. cbn [Py.bind].
      apply merge_turn_inv in E as (_ & m & -> & _).
      apply IH. now apply dict_set_NoDup. }
  apply H. constructor.
Qed.

Lemma merge_masks_keys n_cat (segment : dict SegInfo) sc (mm : dict mask2) sc' k :
  merge_masks n_cat segment sc = Ok (mm, sc') ->
  In k (keys mm) ->
  exists key, In key (keys segment) /\ k = decode n_cat key.
Proof.
  unfold merge_masks.
  assert (forall (mm0 : dict mask2) s,
             merge_loop n_cat segment (mm0, s) = Ok (mm, sc') ->
             In k (keys mm) ->
             In k (keys mm0)
             \/ exists key, In key (keys segment) /\ k = decode n_cat key) as H.
  { induction segment as [|[key info] segment IH]; intros mm0 s; cbn [merge_loop].
    - intros [= <- _]. tauto.
    - destruct (merge_turn n_cat (mm0, s) (key, info)) as [[mm1 sc1]|] eqn:E;
        [|discriminate]. cbn [Py.bind].
      apply merge_turn_inv in E as (_ & m & -> & _).
      intros H Hk. destruct (IH _ _ H Hk) as [Hin|(key' & Hin & ->)].
      + apply keys_dict_set in Hin as [->|Hin]; [|tauto].
        right. exists key. split; [now left | reflexivity].
      + right. exists key'. split; [now right | reflexivity]. }
  intros Hm Hk. destruct (H _ _ Hm Hk) as [[]|Hr]. exact Hr.
Qed.

Lemma dict_get_In {V : Type} (d : dict V) k v :
  List.NoDup (keys d) -> (dict_get k d = Some v <-> In (k, v) d).
Proof.
  induction d as [|[k0 v0] d IH]; simpl; intros H.
  - split; [discriminate | tauto].
  - inversion H as [|? ? Hn Hd]; subst.
    destruct (Z.eqb_spec k0 k) as [->|Hne].
    + split.
      * intros [= ->]. now left.
      * intros [[= ->]|Hin]; [reflexivity|].
        exfalso. apply Hn. change k with (fst (k, v)). now apply in_map.
    + rewrite (IH Hd). split; [tauto | intros [[= -> ->]|Hin]; tauto].
Qed.

Lemma filter_keys_NoDup {V : Type} (p : Z * V -> bool) (d : dict V) :
  List.NoDup (keys d) -> List.NoDup (keys (List.filter p d)).
Proof.
  induction d as [|kv d IH]; simpl; intros H; [constructor|].
  inversion H as [|? ? Hn Hd]; subst.
  destruct (p kv); simpl; [|now apply IH].
  constructor; [|now apply IH].
  intros Hin. apply Hn. unfold keys in *. apply in_map_iff in Hin.
  destruct Hin as (x & Hx & Hin). apply filter_In in Hin as [Hin _].
  rewrite <- Hx. now apply in_map.
Qed.

(** What the reassembler writes for a keyframe: one record for each category
    whose instance masks have a non-empty OR, holding that OR, and, on every
    record of the frame, the score of the last instance of the frame's
    segment. *)
Lemma reassemble_frame_records n_cat vs (frame : Frame) sc segment recs sc' :
  is_det_keyframe frame = true ->
  dict_get (order_in_video frame) vs = Some segment ->
  reassemble_frame n_cat vs frame sc = Ok (recs, sc') ->
  List.NoDup (map a_category_id recs)
  /\ (forall c, In c (map a_category_id recs) <->
                exists m, union_masks (instance_masks n_cat c segment) = Some (Ok m)
                          /\ sum2 m <> 0)
  /\ (forall r, In r recs ->
        a_image_id r = id frame
        /\ (exists m, union_masks (instance_masks n_cat (a_category_id r) segment)
                      = Some (Ok m)
                      /\ a_segmentation r = maskUtils_encode m
                      /\ a_bbox r = mask_to_bbox m)
        /\ exists a, last segment = Some a /\ a_score r = score (snd a)).
Proof.
  intros Hk Hg. unfold reassemble_frame, subscript. rewrite Hk, Hg. simpl.
  destruct (merge_masks n_cat segment sc) as [[mm s']|] eqn:Hm; [|discriminate].
  simpl.
  pose proof (merge_masks_NoDup _ _ _ _ _ Hm) as Hnd.
  pose proof (fun c => merge_masks_get _ _ c _ _ _ Hm) as Hget.
  destruct (merge_masks_score _ _ _ _ _ Hm) as [(-> & -> & _)|(a & Ha & ->)].
  - simpl. intros [= <- _]. simpl.
    split; [constructor|]. split; [|intros r []].
    intros c. split; [intros [] | intros (m & Hu & _); discriminate].
  - rewrite emit_records. simpl. intros [= <- _].
    assert (Hcat : map a_category_id
                     (map (annotation_of frame (score (snd a)))
                          (List.filter nonempty mm))
                   = keys (List.filter nonempty mm)).
    { rewrite map_map. reflexivity. }
    split; [rewrite Hcat; now apply filter_keys_NoDup|].
    split.
    + intros c. rewrite Hcat. unfold keys. rewrite in_map_iff. split.
      * intros ([c' m] & <- & Hin). apply filter_In in Hin as [Hin Hne].
        exists m. split; [apply Hget; now apply dict_get_In|].
        unfold nonempty in Hne. simpl in *.
        destruct (Z.eqb_spec (sum2 m) 0); [discriminate | assumption].
      * intros (m & Hu & Hne). exists (c, m). split; [reflexivity|].
        apply filter_In. split; [apply dict_get_In; [assumption | now apply Hget]|].
        unfold nonempty. simpl. now destruct (Z.eqb_spec (sum2 m) 0).
    + intros r Hr. apply in_map_iff in Hr as ([c m] & <- & Hin).
      apply filter_In in Hin as [Hin _]. simpl.
      split; [reflexivity|]. split; [|now exists a].
      exists m. split; [|split; reflexivity].
      apply Hget. now apply dict_get_In.
Qed.

(** A frame is reassembled, or fails on its missing segment ([KeyError]),
    or fails on masks that cannot be combined ([ValueError]). *)
Lemma reassemble_frame_exn n_cat vs (frame : Frame) sc e :
  reassemble_frame n_cat vs frame sc = Raise e ->
  (e = KeyError /\ is_det_keyframe frame = true
   /\ dict_get (order_in_video frame) vs = None)
  \/ (e = ValueError /\ is_det_keyframe frame = true
      /\ exists segment, dict_get (order_in_video frame) vs = Some segment
                         /\ merge_masks n_cat segment sc = Raise ValueError).
Proof.
  unfold reassemble_frame, subscript.
  destruct (is_det_keyframe frame); simpl; [|discriminate].
  destruct (dict_get (order_in_video frame) vs) as [segment|]; simpl;
    [|intros [= <-]; now left].
  destruct (merge_masks n_cat segment sc) as [[mm s']|e'] eqn:Hm; simpl.
  - destruct (emit_after_merge _ _ _ frame _ _ Hm) as (recs & ->). discriminate.
  - intros [= <-]. right.
    assert (e' = ValueError) as -> by (eapply merge_loop_exn, Hm).
    split; [reflexivity|]. split; [reflexivity|]. now exists segment.
Qed.

Lemma reassemble_frame_absent n_cat vs (frame : Frame) sc :
  is_det_keyframe frame = true ->
  dict_get (order_in_video frame) vs = None ->
  reassemble_frame n_cat vs frame sc = Raise KeyError.
Proof.
  intros Hk Hg. unfold reassemble_frame, subscript. now rewrite Hk, Hg.
Qed.

(** Masks of one shape can always be merged. *)
Lemma same_shape_merges n_cat (segment : dict SegInfo) sc :
  same_shape segment -> exists r, merge_masks n_cat segment sc = Ok r.
Proof.
  intros [n Hn]. unfold merge_masks.
  assert (forall (mm : dict mask2) s,
             Forall (fun kv => length (snd kv) = n) mm ->
             exists r, merge_loop n_cat segment (mm, s) = Ok r) as H.
  { induction Hn as [|[key info] segment Hi Hn IH]; intros mm s Hmm; simpl.
    - eauto.
    - unfold pixels in Hi. simpl in Hi.
      destruct (dict_get (decode n_cat key) mm) as [old|] eqn:Hold.
      + apply dict_get_Some_In in Hold.
        rewrite List.Forall_forall in Hmm. pose proof (Hmm _ Hold) as Hlen.
        simpl in Hlen.
        rewrite logical_or_same_shape by congruence. simpl.
        apply IH. apply dict_set_Forall; [|now apply List.Forall_forall].
        simpl. rewrite or_pixels_length; congruence.
      + simpl. apply IH. apply dict_set_Forall; assumption. }
  apply H. constructor.
Qed.

Lemma uniform_shapes_get vs k (segment : dict SegInfo) :
  uniform_shapes vs -> dict_get k vs = Some segment -> same_shape segment.
Proof.
  intros Hu Hg. apply dict_get_Some_In in Hg.
  unfold uniform_shapes in Hu. rewrite List.Forall_forall in Hu.
  exact (Hu _ Hg).
Qed.

(** On segments of uniform shapes the only failure is a missing segment. *)
Lemma reassemble_frame_uniform n_cat vs (frame : Frame) sc e :
  uniform_shapes vs ->
  reassemble_frame n_cat vs frame sc = Raise e -> e = KeyError.
Proof.
  intros Hu H. apply reassemble_frame_exn in H
    as [(-> & _)|(_ & _ & segment & Hg & Hm)]; [reflexivity|].
  destruct (same_shape_merges n_cat segment sc (uniform_shapes_get _ _ _ Hu Hg))
    as (r & Hr).
  congruence.
Qed.

Lemma reassemble_frames_exn n_cat vs (frames : list Frame) sc e :
  reassemble_frames n_cat vs frames sc = Raise e ->
  e = KeyError \/ e = ValueError.
Proof.
  revert sc. induction frames as [|f frames IH]; intros sc; simpl;
    [discriminate|].
  destruct (reassemble_frame n_cat vs f sc) as [r|e'] eqn:Hf; simpl.
  - destruct (reassemble_frames n_cat vs frames (snd r)) as [r'|e'] eqn:Hr;
      simpl; [discriminate|].
    intros [= <-]. eapply IH, Hr.
  - intros [= <-]. apply reassemble_frame_exn in Hf as [(-> & _)|(-> & _)]; tauto.
Qed.

Lemma reassemble_frames_uniform n_cat vs (frames : list Frame) sc e :
  uniform_shapes vs ->
  reassemble_frames n_cat vs frames sc = Raise e -> e = KeyError.
Proof.
  intros Hu. revert sc. induction frames as [|f frames IH]; intros sc; simpl;
    [discriminate|].
  destruct (reassemble_frame n_cat vs f sc) as [r|e'] eqn:Hf; simpl.
  - destruct (reassemble_frames n_cat vs frames (snd r)) as [r'|e'] eqn:Hr;
      simpl; [discriminate|].
    intros [= <-]. eapply IH, Hr.
  - intros [= <-]. eapply reassemble_frame_uniform; eassumption.
Qed.

(** A keyframe without a segment stops the loop over the frames. *)
Lemma reassemble_frames_absent n_cat vs (frames : list Frame) sc f :
  In f frames -> is_det_keyframe f = true ->
  dict_get (order_in_video f) vs = None ->
  exists e, reassemble_frames n_cat vs frames sc = Raise e.
Proof.
  intros Hin Hk Hg. revert sc.
  induction frames as [|g frames IH]; intros sc; [destruct Hin|].
  simpl.
  destruct (reassemble_frame n_cat vs g sc) as [rg|eg] eqn:Hrg; simpl;
    [|eauto].
  destruct Hin as [->|Hin].
  - rewrite reassemble_frame_absent in Hrg by assumption. discriminate.
  - destruct (IH Hin (snd rg)) as (e & ->). simpl. eauto.
Qed.

Lemma insert_sorted_In (f g : Frame) l :
  In g (insert_sorted f l) <-> g = f \/ In g l.
Proof.
  induction l as [|h l IH]; simpl.
  - intuition congruence.
  - destruct (order_in_video f <=? order_in_video h); simpl.
    + intuition congruence.
    + rewrite IH. intuition congruence.
Qed.

Lemma sort_dicts_by_field_In (g : Frame) l :
  In g (sort_dicts_by_field l) <-> In g l.
Proof.
  unfold sort_dicts_by_field. induction l as [|f l IH]; simpl; [tauto|].
  rewrite insert_sorted_In, IH. intuition congruence.
Qed.

Lemma reassemble_videos_exn COCO_INFO (all : dict VideoSegment) videos sc e :
  reassemble_videos COCO_INFO all videos sc = Raise e ->
  e = KeyError \/ e = ValueError.
Proof.
  revert sc. induction videos as [|v videos IH]; intros sc; simpl;
    [discriminate|].
  unfold subscript. destruct (dict_get v all) as [vs|]; simpl;
    [|intros [= <-]; now left].
  destruct (reassemble_frames _ vs _ sc) as [r|e'] eqn:Hf; simpl.
  - destruct (reassemble_videos COCO_INFO all videos (snd r)) as [r'|e'] eqn:Hr;
      simpl; [discriminate|].
    intros [= <-]. eapply IH, Hr.
  - intros [= <-]. eapply reassemble_frames_exn, Hf.
Qed.

Lemma reassemble_videos_uniform COCO_INFO (all : dict VideoSegment) videos sc e :
  Forall (fun kv => uniform_shapes (snd kv)) all ->
  reassemble_videos COCO_INFO all videos sc = Raise e -> e = KeyError.
Proof.
  intros Hu. revert sc. induction videos as [|v videos IH]; intros sc; simpl;
    [discriminate|].
  unfold subscript. destruct (dict_get v all) as [vs|] eqn:Hv; simpl;
    [|now intros [= <-]].
  destruct (reassemble_frames _ vs _ sc) as [r|e'] eqn:Hf; simpl.
  - destruct (reassemble_videos COCO_INFO all videos (snd r)) as [r'|e'] eqn:Hr;
      simpl; [discriminate|].
    intros [= <-]. eapply IH, Hr.
  - intros [= <-]. eapply reassemble_frames_uniform; [|exact Hf].
    apply dict_get_Some_In in Hv. rewrite List.Forall_forall in Hu.
    exact (Hu _ Hv).
Qed.

(** A saved video with a keyframe that has no segment, or a saved video
    with no entry at all, keeps the assembly from returning. *)
Lemma reassemble_videos_stops COCO_INFO (all : dict VideoSegment) videos sc vid :
  In vid videos ->
  (dict_get vid all = None
   \/ exists vs f, dict_get vid all = Some vs
                   /\ In f (imgs COCO_INFO) /\ video_id f = vid
                   /\ is_det_keyframe f = true
                   /\ dict_get (order_in_video f) vs = None) ->
  exists e, reassemble_videos COCO_INFO all videos sc = Raise e.
Proof.
  intros Hin Hbad. revert sc.
  induction videos as [|v videos IH]; intros sc; [destruct Hin|].
  simpl. unfold subscript.
  destruct (dict_get v all) as [vs'|] eqn:Hv'; simpl; [|eauto].
  destruct (reassemble_frames _ vs' _ sc) as [rf|ef] eqn:Hrf; simpl; [|eauto].
  destruct Hin as [->|Hin].
  - destruct Hbad as [Hnone|(vs & f & Hall & Hf & Hvid & Hk & Hnone)];
      [congruence|].
    rewrite Hall in Hv'. injection Hv' as <-.
    destruct (reassemble_frames_absent (num_cat COCO_INFO) vs
                (sort_dicts_by_field
                   (get_dicts_by_field_value (imgs COCO_INFO) vid)) sc f)
      as (e & He); try assumption; [|congruence].
    apply sort_dicts_by_field_In. unfold get_dicts_by_field_value.
    apply filter_In. split; [assumption | now apply Z.eqb_eq].
  - destruct (IH Hin (snd rf)) as (e & ->). simpl. eauto.
Qed.

(** C10.  When a keyframe of a saved video has no entry in that video's
    segment map, subscripting the map at the keyframe raises [KeyError]:
    the frame is not passed over with no records, and the output assembly
    does not return.  The exception that leaves [save_as_coco_format] is
    that [KeyError], unless an earlier frame has already failed with the
    [ValueError] of masks that cannot be combined, which masks of uniform
    shapes exclude. *)
Theorem absent_keyframe_raises COCO_INFO VIDEO_ID_SET
    (all : dict VideoSegment) save_video_list vid vs f :
  In vid (match save_video_list with Some l => l | None => VIDEO_ID_SET end) ->
  dict_get vid all = Some vs ->
  In f (imgs COCO_INFO) -> video_id f = vid -> is_det_keyframe f = true ->
  dict_get (order_in_video f) vs = None ->
  (forall sc,
      reassemble_frame (num_cat COCO_INFO) vs f sc = Raise KeyError)
  /\ (exists e,
        save_as_coco_format COCO_INFO VIDEO_ID_SET all save_video_list = Raise e
        /\ (e = KeyError \/ e = ValueError))
  /\ (Forall (fun kv => uniform_shapes (snd kv)) all ->
      save_as_coco_format COCO_INFO VIDEO_ID_SET all save_video_list
      = Raise KeyError).
Proof.
  intros Hin Hall Hf Hv Hk Hnone.
  split; [intros sc; now apply reassemble_frame_absent|].
  unfold save_as_coco_format.
  destruct (reassemble_videos_stops COCO_INFO all _ None vid Hin) as (e & He).
  { right. now exists vs, f. }
  rewrite He. split.
  - exists e. split; [reflexivity|]. eapply reassemble_videos_exn, He.
  - intros Hu. f_equal. eapply reassemble_videos_uniform; eassumption.
Qed.

End Reassembler.

(** ** The pipeline on explicit inputs *)

Section Runs.
Import Stub Inputs.

(** The one-row tracker keeps to the frames of the staged clip. *)
Lemma stub_in_range : predictor_in_range.
Proof.
  intros s reverse o. simpl. unfold propagate.
  rewrite in_map_iff. intros (i & <- & Hi). unfold out_frame. simpl.
  destruct reverse.
  - apply in_rev, in_seq in Hi. lia.
  - apply in_seq in Hi. lia.
Qed.

(** C1, counterexample.  Video 7 with clips of three frames: the planner
    emits the range [0 .. 2] alone, the clip [3 .. 5] being skipped; in
    category-growth mode it emits [1 .. 5] alone.  Neither tiles [0 .. 5]. *)
Lemma planner_ranges_do_not_tile :
  (exists evs count,
      get_clip_prompts coco6 frames6 "points" (Some 3) 0 = Ok (evs, count)
      /\ map snd (yielded evs) = [{| start_idx := 0; end_idx := 2 |}]
      /\ tiles 6 (map snd (yielded evs)) = false)
  /\ (exists plan count,
      get_prompts_from_categories coco6 frames6 0 = Ok (plan, count)
      /\ flat_map entry_ranges plan = [{| start_idx := 1; end_idx := 5 |}]
      /\ tiles 6 (flat_map entry_ranges plan) = false).
Proof.
  split; eexists _, _; (split; [vm_compute; reflexivity | split; reflexivity]).
Qed.

(** The planner theorem on video 8 (fixed length: both clips have a prompt
    frame, and the emitted ranges tile) and on video 7 (category growth: one
    introducing keyframe, at ordinal 1). *)
Lemma planner_ranges_witness :
  (exists evs count',
      get_clip_prompts coco_g frames_g "points" (Some 3) 0 = Ok (evs, count')
      /\ tiles 6 (map snd (yielded evs)) = true)
  /\ (exists plan count',
        get_prompts_from_categories coco6 frames6 0 = Ok (plan, count')
        /\ flat_map entry_ranges plan = [{| start_idx := 1; end_idx := 5 |}]).
Proof.
  split.
  - destruct (planner_ranges coco_g frames_g "points" (Some 3) 0)
      as [(cands & evs & c & Hc & _ & _ & Hg & _ & Hall) _]; [simpl; lia|].
    exists evs, c. split; [exact Hg|]. apply Hall.
    vm_compute in Hc. injection Hc as <-. reflexivity.
  - destruct (planner_ranges coco6 frames6 "points" (Some 3) 0) as [_ H2];
      [simpl; lia|].
    apply (H2 (frame 101 7 1 true)). vm_compute. reflexivity.
Defined.

(** Decoding on video 8: category 1 under counter 4, and the instances of
    the second keyframe encoded from counter 1. *)
Lemma decode_recovers_category_witness :
  decode (num_cat coco_g) (encode (num_cat coco_g) 4 1) = 1
  /\ map (fun o => decode (num_cat coco_g) (obj_id o))
         (fst (get_each_obj coco_g f_g3 1 None 1))
     = instance_categories coco_g f_g3 None.
Proof.
  destruct (decode_recovers_category coco_g f_g3 1 None 1 1) as [H1 H2].
  destruct (decode_recovers_category coco_g f_g3 1 None 4 1) as [H3 _].
  split.
  - apply H3. unfold num_cat. simpl. lia.
  - apply H2. unfold cats_within, num_cat. simpl.
    repeat (constructor; [simpl; lia|]). constructor.
Defined.

(** Distinct ids on video 7, in both planning modes. *)
Lemma obj_ids_pairwise_distinct_witness :
  List.NoDup (map obj_id (all_objs (yielded evs6)))
  /\ List.NoDup (map obj_id (flat_map entry_objs plan6)).
Proof.
  destruct (obj_ids_pairwise_distinct coco6 frames6 "points" (Some 3))
    as [H1 H2].
  - unfold cats_within, num_cat. simpl.
    repeat (constructor; [simpl; lia|]). constructor.
  - split.
    + apply (H1 evs6 2). vm_compute. reflexivity.
    + apply (H2 plan6 2). vm_compute. reflexivity.
Defined.

(** The three-frame clip [s3], staged at offset 3: the anchor, at relative
    index 1, holds the forward score 90, not the reverse pass's 40; frame 0,
    which the reverse pass alone produces, holds the reverse score 40. *)
Lemma forward_pass_wins_witness :
  (exists seg,
    frame_segments 0 [5] [([[true; false; true]], 90)] [] = Ok seg
    /\ dict_get (1 + 3) vs3 = Some seg
    /\ forall j oid, List.NoDup [5] -> nth_error [5] j = Some oid ->
         exists l, nth_error [([[true; false; true]], 90)] j = Some l
                   /\ dict_get oid seg
                      = Some {| mask := mask_of_logit l; score := score_of_logit l |})
  /\ (exists seg_r,
        frame_segments 0 [5] [([[true; false; true]], 40)] [] = Ok seg_r
        /\ dict_get (0 + 3) vs3 = Some seg_r)
  /\ (exists vs_rev seg_r,
        write_pass (propagate_in_video s3 true) 3 [] = Ok vs_rev
        /\ frame_segments 0 [5] [([[true; false; true]], 40)] [] = Ok seg_r
        /\ dict_get (1 + 3) vs_rev = Some seg_r).
Proof.
  destruct (forward_pass_wins s3 3 vs3 [] 1 [5] [([[true; false; true]], 90)]
              [(2, [5], [([[true; false; true]], 90)])])
    as [Hf (vs_rev & Hrev & _ & Hr)].
  - vm_compute. reflexivity.
  - reflexivity.
  - simpl. intros [H|[]]. discriminate H.
  - split; [exact Hf|]. split.
    + destruct (Hr [(1, [5], [([[true; false; true]], 40)])] 0 [5]
                  [([[true; false; true]], 40)] [])
        as (seg_r & H1 & _ & _ & H4); [reflexivity | simpl; tauto |].
      exists seg_r. split; [exact H1|]. apply H4.
      simpl. intros [H|[H|[]]]; discriminate H.
    + destruct (Hr [] 1 [5] [([[true; false; true]], 40)]
                  [(0, [5], [([[true; false; true]], 40)])])
        as (seg_r & H1 & H2 & _); [reflexivity | |].
      * simpl. intros [H|[]]. discriminate H.
      * exists vs_rev, seg_r. split; [exact Hrev|]. split; [exact H1 | exact H2].
Defined.

(** The skipped clip [3 .. 5] of video 7. *)
Lemma skipped_clip_leaves_no_frames_witness :
  exists evs count,
    get_clip_prompts coco6 frames6 "points" (Some 3) 0 = Ok (evs, count)
    /\ In {| start_idx := 3; end_idx := 5 |} (warned evs)
    /\ ~ In {| start_idx := 3; end_idx := 5 |} (map snd (yielded evs))
    /\ ~ (exists ps, In (Clip ps {| start_idx := 3; end_idx := 5 |}) (entries evs))
    /\ forall f, covers {| start_idx := 3; end_idx := 5 |} f ->
                 dict_get f vs6 = None.
Proof.
  destruct (skipped_clip_leaves_no_frames coco6 frames6 "points" (Some 3) []
              [{| start_idx := 0; end_idx := 2 |};
               {| start_idx := 3; end_idx := 5 |}]
              {| start_idx := 3; end_idx := 5 |})
    as (evs & count & Hg & Hw & Hy & He & Hvs).
  - exact stub_in_range.
  - reflexivity.
  - simpl. right. left. reflexivity.
  - intros g Hg. simpl in Hg.
    repeat (destruct Hg as [<-|Hg]; [reflexivity|]). destruct Hg.
  - exists evs, count.
    split; [exact Hg|]. split; [exact Hw|]. split; [exact Hy|].
    split; [exact He|].
    intros f Hf. eapply Hvs; [vm_compute; reflexivity | exact Hf].
Defined.

(** Video 8 has two introducing keyframes. *)
Lemma category_growth_append_raises_witness :
  (forall count, get_prompts_from_categories coco_g frames_g count = Raise TypeError)
  /\ (forall ptype clip_length log,
        process_singel_video coco_g frames_g ptype clip_length true log
        = Raise TypeError).
Proof.
  apply (category_growth_append_raises coco_g frames_g).
  vm_compute. lia.
Defined.

(** The keyframe at ordinal 4 of video 7 lies in the skipped clip [3 .. 5];
    the segments of the processed clip [0 .. 2] all have three pixels. *)
Lemma absent_keyframe_raises_witness :
  (forall sc,
      reassemble_frame (num_cat coco6) vs6 (frame 104 7 4 true) sc = Raise KeyError)
  /\ (exists e,
        save_as_coco_format coco6 [7] [(7, vs6)] None = Raise e
        /\ (e = KeyError \/ e = ValueError))
  /\ save_as_coco_format coco6 [7] [(7, vs6)] None = Raise KeyError.
Proof.
  destruct (absent_keyframe_raises coco6 [7] [(7, vs6)] None 7 vs6
              (frame 104 7 4 true)) as (H1 & H2 & H3).
  - simpl. left. reflexivity.
  - reflexivity.
  - simpl. tauto.
  - reflexivity.
  - reflexivity.
  - reflexivity.
  - split; [exact H1|]. split; [exact H2|]. apply H3.
    repeat constructor; exists 3%nat; repeat constructor.
Defined.


(** C2, evaluated.  A keyframe with an instance of category 1 (score 90)
    followed by an instance of category 2 (score 30): the record of
    category 1 carries the score 30 of the other category's instance, while
    the only instance merged for category 1 has the score 90. *)
Theorem reassembled_scores_are_the_frames_last :
  save_as_coco_format coco_r [9] [(9, vs_r)] None
  = Ok [{| a_image_id := 300; a_category_id := 1;
           a_segmentation := [true; false]; a_bbox := [(0%nat, 1%nat)];
           a_iscrowd := 0; a_score := 30 |};
        {| a_image_id := 300; a_category_id := 2;
           a_segmentation := [false; true]; a_bbox := [(1%nat, 2%nat)];
           a_iscrowd := 0; a_score := 30 |}]
  /\ (exists segment,
        dict_get 0 vs_r = Some segment
        /\ map (fun kv => score (snd kv))
               (List.filter (fun kv => decode (num_cat coco_r) (fst kv) =? 1)
                            segment)
           = [90]).
Proof.
  split; [reflexivity|].
  eexists. split; reflexivity.
Qed.

(** C8, evaluated.  Video 10 is listed with the frame of ordinal 1 before the
    frame of ordinal 0, both annotated keyframes of the clip [0 .. 1]: the
    dataset-order scan of [process_all_videos] selects the frame of ordinal
    1, although the frame of ordinal 0 qualifies. *)
Theorem prompt_frame_follows_dataset_order :
  prompt_frame_of coco_u 10 {| start_idx := 0; end_idx := 1 |}
  = Some (frame 401 10 1 true)
  /\ In (frame 400 10 0 true) (get_dicts_by_field_value (imgs coco_u) 10)
  /\ qualifies coco_u {| start_idx := 0; end_idx := 1 |} (frame 400 10 0 true) = true
  /\ order_in_video (frame 400 10 0 true) < order_in_video (frame 401 10 1 true).
Proof.
  split; [reflexivity|]. split; [simpl; tauto|]. split; reflexivity.
Qed.

End Runs.

(** * Further properties of the code *)

(** ** Frame selection and sorting *)

Section FrameLists.
Context {U : Utils}.
Implicit Types (COCO_INFO : Coco) (frames : list Frame) (r : ClipRange).

(** X1.  [find_prompt_frame] returns the first frame of the list, in list
    order, that is an annotated keyframe with its ordinal inside the clip
    range, and [None] exactly when the list has no such frame. *)
Theorem prompt_frame_first_qualifying COCO_INFO frames r :
  match find_prompt_frame COCO_INFO frames r with
  | Some f =>
      exists before after,
        frames = before ++ f :: after
        /\ qualifies COCO_INFO r f = true
        /\ Forall (fun g => qualifies COCO_INFO r g = false) before
  | None => Forall (fun g => qualifies COCO_INFO r g = false) frames
  end.
Proof.
  destruct (find_prompt_frame COCO_INFO frames r) as [f|] eqn:H.
  - now apply find_prompt_frame_first.
  - now apply find_prompt_frame_None.
Qed.

(** X2.  On a frame list that ascends in [order_in_video], the prompt frame
    is the qualifying frame with the smallest ordinal. *)
Theorem prompt_frame_smallest_when_sorted COCO_INFO frames r f :
  StronglySorted (fun a b => order_in_video a <= order_in_video b) frames ->
  find_prompt_frame COCO_INFO frames r = Some f ->
  qualifies COCO_INFO r f = true
  /\ forall g, In g frames -> qualifies COCO_INFO r g = true ->
               order_in_video f <= order_in_video g.
Proof.
  intros Hs Hf. split.
  - destruct (find_prompt_frame_first _ _ _ _ Hf) as (b & a & _ & Hq & _).
    exact Hq.
  - now apply (find_prompt_frame_sorted_min COCO_INFO frames r f).
Qed.

Lemma insert_sorted_perm (f : Frame) l : Permutation (f :: l) (insert_sorted f l).
Proof.
  induction l as [|g l IH]; simpl; [reflexivity|].
  destruct (order_in_video f <=? order_in_video g); [reflexivity|].
  rewrite perm_swap. now constructor.
Qed.

Lemma insert_sorted_sorted (f : Frame) l :
  StronglySorted (fun a b => order_in_video a <= order_in_video b) l ->
  StronglySorted (fun a b => order_in_video a <= order_in_video b)
                 (insert_sorted f l).
Proof.
  intros Hs. induction Hs as [|g l Hs IH Hall]; simpl.
  - constructor; constructor.
  - destruct (Z.leb_spec (order_in_video f) (order_in_video g)).
    + constructor; [now constructor|].
      constructor; [assumption|].
      eapply List.Forall_impl; [|exact Hall]. simpl. intros a Ha. lia.
    + constructor; [assumption|].
      rewrite List.Forall_forall in *. intros a Ha.
      apply insert_sorted_In in Ha as [->|Ha]; [lia | now apply Hall].
Qed.

(** X3.  [sort_dicts_by_field(frames, "order_in_video")] returns the same
    frames, rearranged so that the ordinals ascend. *)
Theorem sort_dicts_by_field_sorts frames :
  StronglySorted (fun a b => order_in_video a <= order_in_video b)
                 (sort_dicts_by_field frames)
  /\ Permutation frames (sort_dicts_by_field frames).
Proof.
  unfold sort_dicts_by_field. induction frames as [|f frames [IHs IHp]]; simpl.
  - split; constructor.
  - split; [now apply insert_sorted_sorted|].
    rewrite <- insert_sorted_perm. now constructor.
Qed.

(** X4.  The sort is stable on what is already in order: a frame list whose
    ordinals ascend, equal ordinals included, is returned unchanged. *)
Theorem sort_dicts_by_field_keeps_sorted frames :
  StronglySorted (fun a b => order_in_video a <= order_in_video b) frames ->
  sort_dicts_by_field frames = frames.
Proof.
  unfold sort_dicts_by_field. intros Hs.
  induction Hs as [|f l Hs IH Hall]; simpl; [reflexivity|].
  rewrite IH. destruct l as [|g l]; simpl; [reflexivity|].
  inversion Hall as [|? ? Hfg _]; subst.
  destruct (Z.leb_spec (order_in_video f) (order_in_video g)); [reflexivity|lia].
Qed.

End FrameLists.

(** ** The encoder's counter *)

Section Counter.
Context {U : Utils}.
Implicit Types (COCO_INFO : Coco) (frames : list Frame).

Lemma objs_of_masks_count n_cat cat num_points masks count :
  snd (objs_of_masks n_cat cat num_points masks count)
  = count + Z.of_nat (length masks)
  /\ length (fst (objs_of_masks n_cat cat num_points masks count)) = length masks.
Proof.
  revert count. induction masks as [|m masks IH]; intros count; simpl.
  - split; [lia | reflexivity].
  - specialize (IH (count + 1)).
    destruct (objs_of_masks n_cat cat num_points masks (count + 1)) as [objs c].
    simpl in *. destruct IH as [-> ->]. split; lia.
Qed.

(** X5.  [get_each_obj] advances [OBJ_COUNT] once per object it returns,
    and returns one object per sub-mask of every annotation of the frame
    that passes the category filter, whatever the category ids are. *)
Theorem get_each_obj_counts COCO_INFO f num_points filter_cats count :
  snd (get_each_obj COCO_INFO f num_points filter_cats count)
  = count + Z.of_nat (length (fst (get_each_obj COCO_INFO f num_points
                                                filter_cats count)))
  /\ length (fst (get_each_obj COCO_INFO f num_points filter_cats count))
     = length (instance_categories COCO_INFO f filter_cats).
Proof.
  unfold get_each_obj, instance_categories.
  generalize (loadAnns COCO_INFO (id f)) as l. intros l. revert count.
  induction l as [|a l IH]; intros count; simpl.
  - split; [lia | reflexivity].
  - unfold kept at 1 3.
    destruct filter_cats as [cs|]; simpl.
    + destruct (bool_decide (category_id a ∈ cs)); simpl; [|apply IH].
      pose proof (objs_of_masks_count (num_cat COCO_INFO) (category_id a)
                    num_points
                    (mask_to_masks (maskUtils_decode (segmentation a))) count)
        as [H1 H2].
      destruct (objs_of_masks _ _ _ _ count) as [objs c]. simpl in *.
      specialize (IH c).
      destruct (objs_of_anns _ num_points (Some cs) l c) as [objs' c'].
      simpl in *. destruct IH as [-> IH2].
      rewrite !length_app, repeat_length, H2, IH2. split; lia.
    + pose proof (objs_of_masks_count (num_cat COCO_INFO) (category_id a)
                    num_points
                    (mask_to_masks (maskUtils_decode (segmentation a))) count)
        as [H1 H2].
      destruct (objs_of_masks _ _ _ _ count) as [objs c]. simpl in *.
      specialize (IH c).
      destruct (objs_of_anns _ num_points None l c) as [objs' c'].
      simpl in *. destruct IH as [-> IH2].
      rewrite !length_app, repeat_length, H2, IH2. split; lia.
Qed.

Lemma zseq_sorted c n : StronglySorted Z.lt (zseq c n).
Proof.
  revert c. induction n as [|n IH]; intros c.
  - constructor.
  - rewrite zseq_cons. constructor; [apply IH|].
    apply List.Forall_forall. intros x Hx. apply zseq_In in Hx. lia.
Qed.

Lemma sorted_by_quotient d (l : list Z) :
  0 < d -> StronglySorted Z.lt (map (fun k => k / d) l) -> StronglySorted Z.lt l.
Proof.
  intros Hd. induction l as [|x l IH]; simpl; intros Hs; [constructor|].
  apply StronglySorted_inv in Hs as [Hs Hall].
  constructor; [now apply IH|].
  rewrite List.Forall_forall in *. intros y Hy.
  specialize (Hall (y / d) (in_map _ _ _ Hy)).
  destruct (Z.lt_ge_cases x y) as [|Hge]; [assumption|].
  pose proof (Z.div_le_mono y x d Hd Hge). lia.
Qed.

Lemma numbered_sorted n_cat c c' (objs : list PromptObject) :
  0 <= n_cat -> numbered n_cat c c' objs ->
  StronglySorted Z.lt (map obj_id objs).
Proof.
  intros Hn [H _]. apply (sorted_by_quotient (n_cat + 1)); [lia|].
  rewrite map_map. unfold seqno in H. rewrite H. apply zseq_sorted.
Qed.

(** X6.  Over a whole fixed-length plan, which starts from a counter of
    zero, the object ids grow strictly in the order in which the instances
    are emitted, and the final counter is the number of instances,
    provided the category ids lie in [0 .. num_categories]. *)
Theorem obj_ids_grow COCO_INFO frames ptype clip_length evs count :
  cats_within COCO_INFO 0 (num_cat COCO_INFO) ->
  get_clip_prompts COCO_INFO frames ptype clip_length 0 = Ok (evs, count) ->
  StronglySorted Z.lt (map obj_id (all_objs (yielded evs)))
  /\ count = Z.of_nat (length (all_objs (yielded evs))).
Proof.
  intros Hc. unfold get_clip_prompts.
  destruct (clip_ranges _ _) as [rs|]; [|discriminate]. simpl.
  intros [= E].
  pose proof (plan_clips_numbered COCO_INFO frames ptype rs 0 Hc) as Hn.
  rewrite E in Hn. simpl in Hn. split.
  - eapply numbered_sorted; [|exact Hn]. unfold num_cat. lia.
  - destruct Hn as [_ ->]. lia.
Qed.

End Counter.

(** ** Clip ranges and planner output *)

Section Ranges.
Context {U : Utils} {M : Sam2}.
Implicit Types (COCO_INFO : Coco) (frames : list Frame) (r : ClipRange).

(** X7.  Every clip range that the fixed-length planner enumerates lies
    inside the video, starts at a multiple of the clip length and holds at
    most [clip_length] frames. *)
Theorem clip_range_shape n L rs r :
  0 <= n -> clip_ranges n L = Ok rs -> In r rs ->
  0 <= start_idx r <= end_idx r
  /\ end_idx r <= n - 1
  /\ end_idx r - start_idx r + 1 <= L
  /\ start_idx r mod L = 0.
Proof.
  intros Hn Hrs Hr.
  pose proof (clip_ranges_bounds n L rs r Hrs Hn Hr) as [Hb He].
  revert Hrs Hr Hb He. unfold clip_ranges, range0.
  destruct (Z.eqb_spec L 0) as [|HL]; [discriminate|]. simpl. intros [= <-].
  rewrite map_map, in_map_iff. intros (k & <- & Hk). simpl. intros Hb He.
  repeat split; try lia. apply Z_mod_mult.
Qed.

(** X8.  With no clip length given, or one that is at least the frame
    count, a non-empty video is planned as the single clip [0 .. N-1]. *)
Theorem whole_video_clip COCO_INFO frames ptype clip_length count :
  let n := Z.of_nat (length frames) in
  1 <= n ->
  n <= match clip_length with Some l => l | None => n end ->
  exists evs count',
    get_clip_prompts COCO_INFO frames ptype clip_length count = Ok (evs, count')
    /\ yielded_ranges evs ++ warned evs = [{| start_idx := 0; end_idx := n - 1 |}].
Proof.
  intros n Hn HL. unfold get_clip_prompts. fold n.
  set (L := match clip_length with Some l => l | None => n end) in *.
  assert (clip_ranges n L = Ok [{| start_idx := 0; end_idx := n - 1 |}]) as ->.
  { unfold clip_ranges. rewrite range0_pos by lia.
    destruct (Z.ltb_spec 0 n); [|lia].
    rewrite Z.div_small by lia. simpl.
    unfold clip_range_at. simpl. do 3 f_equal. lia. }
  simpl. unfold yielded_ranges.
  destruct (find_prompt_frame COCO_INFO frames _) as [pf|].
  - destruct (get_each_obj COCO_INFO pf 1 None count) as [objs c].
    eexists _, _. split; reflexivity.
  - eexists _, _. split; reflexivity.
Qed.

(** X9.  Degenerate clip lengths.  A clip length of zero, and the default
    clip length on a video without frames, make [range] raise [ValueError];
    a negative clip length plans no clip at all, so the video comes back
    with no segments, no prompt logged and no warning. *)
Theorem degenerate_clip_lengths COCO_INFO frames ptype log L :
  process_singel_video COCO_INFO frames ptype (Some 0) false log = Raise ValueError
  /\ process_singel_video COCO_INFO [] ptype None false log = Raise ValueError
  /\ (L < 0 ->
      get_clip_prompts COCO_INFO frames ptype (Some L) 0 = Ok ([], 0)
      /\ process_singel_video COCO_INFO frames ptype (Some L) false log
         = Ok ([], log, 0)).
Proof.
  split; [reflexivity|]. split; [reflexivity|].
  intros HL.
  assert (get_clip_prompts COCO_INFO frames ptype (Some L) 0 = Ok ([], 0)) as H.
  { unfold get_clip_prompts, clip_ranges, range0, range_len.
    destruct (Z.eqb_spec L 0); [lia|].
    destruct (Z.ltb_spec 0 L); [lia|].
    destruct (Z.ltb_spec (Z.of_nat (length frames)) 0); [lia|]. reflexivity. }
  split; [exact H|]. unfold process_singel_video. rewrite H. reflexivity.
Qed.

Lemma plan_clips_batches COCO_INFO frames ptype ranges count ps r :
  In (ps, r) (yielded (fst (plan_clips COCO_INFO frames ptype ranges count))) ->
  exists f objs,
    ps = [prompt_info_at f objs ptype]
    /\ find_prompt_frame COCO_INFO frames r = Some f.
Proof.
  revert count. induction ranges as [|r0 ranges IH]; intros count; simpl.
  - intros [].
  - destruct (find_prompt_frame COCO_INFO frames r0) as [pf|] eqn:Hpf.
    + destruct (get_each_obj COCO_INFO pf 1 None count) as [objs c].
      specialize (IH c).
      destruct (plan_clips COCO_INFO frames ptype ranges c) as [evs c'].
      simpl in *. intros [[= <- <-]|Hin]; [|now apply IH].
      now exists pf, objs.
    + specialize (IH count).
      destruct (plan_clips COCO_INFO frames ptype ranges count) as [evs c'].
      simpl in *. exact IH.
Qed.

(** X10.  Every pair that the fixed-length planner yields holds exactly
    one prompt batch: it is tagged with the run's prompt kind and anchored
    at an annotated keyframe of the frame list whose ordinal lies inside
    the pair's clip range. *)
Theorem yielded_batch_anchored COCO_INFO frames ptype clip_length count evs
    count' ps r :
  get_clip_prompts COCO_INFO frames ptype clip_length count = Ok (evs, count') ->
  In (ps, r) (yielded evs) ->
  exists info f,
    ps = [info]
    /\ prompt_type info = ptype
    /\ In f frames
    /\ is_det_keyframe f = true
    /\ has_anns COCO_INFO f = true
    /\ frame_idx info = order_in_video f
    /\ start_idx r <= frame_idx info <= end_idx r.
Proof.
  unfold get_clip_prompts.
  destruct (clip_ranges _ _) as [rs|]; [|discriminate]. simpl.
  intros [= E] Hin.
  assert (evs = fst (plan_clips COCO_INFO frames ptype rs count)) as ->
      by now rewrite E.
  apply plan_clips_batches in Hin as (f & objs & -> & Hf).
  apply find_prompt_frame_first in Hf as (b & a & Hfr & Hq & _).
  exists (prompt_info_at f objs ptype), f.
  unfold qualifies, in_range in Hq.
  apply andb_prop in Hq as [Hq Ha]. apply andb_prop in Hq as [Hk Hr].
  apply negb_true_iff, orb_false_elim in Hr as [H1 H2].
  repeat split; try assumption; try reflexivity.
  - rewrite Hfr. apply in_or_app. right. now left.
  - simpl. now apply Z.ltb_ge.
  - simpl. rewrite Z.gtb_ltb in H2. now apply Z.ltb_ge.
Qed.

(** X11.  The fixed-length planner accounts for every clip range it
    enumerates: a range is yielded when it holds an annotated keyframe of
    the frame list (one with annotations and an ordinal between the range's
    bounds, both included) and warned about when it holds none, never both
    and never neither. *)
Theorem every_range_yielded_or_warned COCO_INFO frames ptype clip_length count
    evs count' candidates r :
  clip_ranges (Z.of_nat (length frames))
    (match clip_length with Some l => l | None => Z.of_nat (length frames) end)
  = Ok candidates ->
  get_clip_prompts COCO_INFO frames ptype clip_length count = Ok (evs, count') ->
  (In r (yielded_ranges evs) <->
   In r candidates /\ holds_annotated_keyframe COCO_INFO frames r = true)
  /\ (In r (warned evs) <->
      In r candidates /\ holds_annotated_keyframe COCO_INFO frames r = false)
  /\ (length (yielded_ranges evs) + length (warned evs))%nat = length candidates.
Proof.
  intros Hrs. unfold get_clip_prompts. rewrite Hrs. simpl. intros [= E].
  assert (evs = fst (plan_clips COCO_INFO frames ptype candidates count)) as ->
      by now rewrite E.
  unfold yielded_ranges. rewrite plan_clips_yielded, plan_clips_warned.
  rewrite !filter_In, <- !has_prompt_annotated_keyframe. split; [tauto|]. split.
  - split; intros [H1 H2]; (split; [assumption|]).
    + now apply negb_true_iff.
    + now apply negb_true_iff.
  - clear. induction candidates as [|c cs IH]; simpl; [reflexivity|].
    destruct (has_prompt COCO_INFO frames c); simpl; lia.
Qed.

(** X12.  Category-growth mode on a video in which no keyframe introduces
    a category (no annotated keyframe at all, for one): the planner
    returns one entry whose prompt and start are [None], and processing
    the video raises [TypeError]. *)
Theorem category_growth_without_keyframe COCO_INFO frames ptype clip_length log :
  introducing COCO_INFO frames ∅ = [] ->
  get_prompts_from_categories COCO_INFO frames 0
  = Ok ([NoneClip (Z.of_nat (length frames) - 1)], 0)
  /\ process_singel_video COCO_INFO frames ptype clip_length true log
     = Raise TypeError.
Proof.
  intros Hi.
  assert (get_prompts_from_categories COCO_INFO frames 0
          = Ok ([NoneClip (Z.of_nat (length frames) - 1)], 0)) as H
      by now rewrite get_prompts_from_categories_cases, Hi.
  split; [exact H|]. unfold process_singel_video. rewrite H. reflexivity.
Qed.

(** X13.  Category-growth mode on a video whose only introducing keyframe
    is its last frame: the planner returns no clip, so the video comes
    back with no segments at all, although the encoder has numbered the
    keyframe's instances. *)
Theorem category_growth_last_frame_only COCO_INFO frames ptype clip_length log f :
  introducing COCO_INFO frames ∅ = [f] ->
  order_in_video f = Z.of_nat (length frames) - 1 ->
  process_singel_video COCO_INFO frames ptype clip_length true log
  = Ok ([], log, snd (get_each_obj COCO_INFO f 1 None 0)).
Proof.
  intros Hi Hl. unfold process_singel_video.
  rewrite get_prompts_from_categories_cases, Hi. simpl.
  rewrite Hl, Z.eqb_refl. reflexivity.
Qed.

End Ranges.

(** ** Seeding and propagation *)

Section Seeding.
Context {U : Utils} {M : Sam2}.
Implicit Types (vs : VideoSegment) (s : inference_state).

Lemma fold_add_one objs s (b : bool) fidx ptype :
  fold_left (fun st obj => add_one obj fidx ptype st) objs (s, b)
  = if known_kind ptype then
      ({| video_paths := video_paths s;
          seeds := seeds s ++ map (seed_of ptype fidx) objs |},
       b || match objs with [] => false | _ :: _ => true end)
    else (s, b).
Proof.
  unfold known_kind.
  revert s b. induction objs as [|o objs IH]; intros s b.
  - simpl. destruct s as [vp sd]. simpl.
    rewrite app_nil_r, orb_false_r.
    now destruct (_ || _ || _).
  - cbn [fold_left]. unfold add_one at 2, seed_of.
    destruct (String.eqb ptype "points") eqn:E1;
      [|destruct (String.eqb ptype "bbox") eqn:E2;
        [|destruct (String.eqb ptype "mask") eqn:E3]];
      rewrite IH; unfold seed_of; rewrite ?E1, ?E2, ?E3; simpl;
      rewrite <- ?app_assoc, ?orb_true_r; reflexivity.
Qed.

(** X14.  [add_prompt] seeds the predictor once per object, in order, all
    at the given frame, by the call that belongs to the prompt kind; with
    no object, or a kind other than [points], [bbox] and [mask], its
    [return] reads a variable that was never assigned and raises
    [UnboundLocalError]. *)
Theorem add_prompt_seeds objs s fidx ptype :
  add_prompt objs s fidx ptype
  = if known_kind ptype && match objs with [] => false | _ :: _ => true end
    then Ok {| video_paths := video_paths s;
               seeds := seeds s ++ map (seed_of ptype fidx) objs |}
    else Raise UnboundLocalError.
Proof.
  unfold add_prompt. rewrite fold_add_one.
  destruct (known_kind ptype); simpl; [|reflexivity].
  now destruct objs.
Qed.

Lemma add_prompts_exn ps start s e :
  add_prompts ps start s = Raise e -> e = UnboundLocalError.
Proof.
  revert s. induction ps as [|p ps IH]; intros s; simpl; [discriminate|].
  rewrite add_prompt_seeds.
  destruct (_ && _); simpl; [apply IH | now intros [= <-]].
Qed.

Lemma add_prompts_bad ps start s p :
  In p ps ->
  prompt_objs p = [] \/ known_kind (prompt_type p) = false ->
  add_prompts ps start s = Raise UnboundLocalError.
Proof.
  intros Hin Hbad.
  destruct (add_prompts ps start s) as [s'|e] eqn:H;
    [|f_equal; eapply add_prompts_exn, H].
  exfalso. revert s H. induction ps as [|q ps IH]; intros s; [destruct Hin|].
  simpl. rewrite add_prompt_seeds.
  destruct Hin as [->|Hin].
  - destruct Hbad as [-> | ->]; [rewrite andb_false_r | ]; discriminate.
  - destruct (_ && _); simpl; [now apply IH | discriminate].
Qed.

(** X15.  A clip cannot be processed with a prompt batch that holds no
    object, or whose kind is unknown: [process_video_clip] raises
    [UnboundLocalError] before any propagation. *)
Theorem empty_batch_fails_clip frames clip_prompts clip_range p :
  In p clip_prompts ->
  prompt_objs p = [] \/ known_kind (prompt_type p) = false ->
  process_video_clip frames clip_prompts clip_range = Raise UnboundLocalError.
Proof.
  intros Hin Hbad. unfold process_video_clip.
  now rewrite (add_prompts_bad _ _ _ p Hin Hbad).
Qed.

Lemma frame_segments_total i ids (lg : list Logit) acc :
  (i + length ids <= length lg)%nat ->
  exists seg, frame_segments i ids lg acc = Ok seg.
Proof.
  revert i acc. induction ids as [|x ids IH]; intros i acc H; simpl.
  - now exists acc.
  - destruct (nth_error lg i) as [l|] eqn:E.
    + apply IH. simpl in H. lia.
    + apply nth_error_None in E. simpl in H. lia.
Qed.

Lemma frame_segments_short i ids (lg : list Logit) acc :
  ids <> [] -> (length lg < i + length ids)%nat ->
  frame_segments i ids lg acc = Raise IndexError.
Proof.
  revert i acc. induction ids as [|x ids IH]; intros i acc Hne H; [congruence|].
  simpl. destruct (nth_error lg i) as [l|] eqn:E; [|reflexivity].
  assert (i < length lg)%nat by (apply nth_error_Some; congruence).
  apply IH; [|simpl in H; lia].
  destruct ids; [simpl in H; lia | discriminate].
Qed.

Lemma write_pass_total outs start vs :
  Forall logits_cover outs -> exists vs', write_pass outs start vs = Ok vs'.
Proof.
  intros H. revert vs. induction H as [|[[fi ids] lg] outs Ho _ IH]; intros vs.
  - now exists vs.
  - simpl. unfold logits_cover in Ho. simpl in Ho.
    destruct (frame_segments_total 0 ids lg [] Ho) as (seg & ->). simpl.
    apply IH.
Qed.

(** X16.  When the predictor gives a logit for every object id it
    reports, [predict_on_video] succeeds, and the frames of its result are
    exactly the frames that the two passes produced, each moved by the
    clip's start index. *)
Theorem predict_on_video_frames s start :
  Forall logits_cover (propagate_in_video s true) ->
  Forall logits_cover (propagate_in_video s false) ->
  exists vs,
    predict_on_video s start = Ok vs
    /\ forall k, In k (keys vs) <->
                 exists o, In o (propagate_in_video s true
                                 ++ propagate_in_video s false)
                           /\ k = out_frame o + start.
Proof.
  intros Hr Hf. unfold predict_on_video.
  destruct (write_pass_total _ start [] Hr) as (vs1 & E1).
  destruct (write_pass_total _ start vs1 Hf) as (vs2 & E2).
  rewrite E1. simpl. exists vs2. split; [exact E2|].
  intros k. split.
  - intros Hk. destruct (write_pass_keys _ _ _ _ _ E2 Hk) as [Hin|(o & Ho & ->)].
    + destruct (write_pass_keys _ _ _ _ _ E1 Hin) as [[]|(o & Ho & ->)].
      exists o. split; [apply in_or_app; now left | reflexivity].
    + exists o. split; [apply in_or_app; now right | reflexivity].
  - intros (o & Ho & ->). apply in_app_or in Ho as [Ho|Ho].
    + apply (write_pass_keys_back _ _ _ _ _ E2). left.
      apply (write_pass_keys_back _ _ _ _ _ E1). right. now exists o.
    + apply (write_pass_keys_back _ _ _ _ _ E2). right. now exists o.
Qed.

(** X17.  A propagation output that reports more object ids than it has
    logits makes the pass raise [IndexError]: nothing of the pass is
    returned, not even the frames written before. *)
Theorem write_pass_short_logits outs start vs :
  Exists (fun o => ~ logits_cover o) outs ->
  write_pass outs start vs = Raise IndexError.
Proof.
  intros H. revert vs. induction H as [[[fi ids] lg] outs Ho|[[fi ids] lg] outs _ IH];
    intros vs; simpl.
  - unfold logits_cover in Ho. simpl in Ho.
    rewrite frame_segments_short; [reflexivity | | simpl; lia].
    destruct ids; [simpl in Ho; lia | discriminate].
  - destruct (frame_segments 0 ids lg []) as [seg|e] eqn:E; simpl; [apply IH|].
    destruct (Nat.le_gt_cases (0 + length ids) (length lg)) as [Hle|Hgt].
    + destruct (frame_segments_total 0 ids lg [] Hle). congruence.
    + rewrite frame_segments_short in E; [congruence | | exact Hgt].
      destruct ids; [simpl in Hgt; lia | discriminate].
Qed.

(** X18.  A frame that only the reverse pass produces keeps the reverse
    pass's output: the forward pass changes nothing at frames it does not
    produce. *)
Theorem reverse_only_frame_kept s start vs before fi ids lg after :
  predict_on_video s start = Ok vs ->
  propagate_in_video s true = before ++ (fi, ids, lg) :: after ->
  ~ In fi (map out_frame after) ->
  ~ In fi (map out_frame (propagate_in_video s false)) ->
  exists seg,
    frame_segments 0 ids lg [] = Ok seg
    /\ dict_get (fi + start) vs = Some seg.
Proof.
  unfold predict_on_video. intros H Hr Hn Hf.
  destruct (write_pass (propagate_in_video s true) start []) as [vs1|] eqn:E1;
    [|discriminate]. simpl in H.
  rewrite Hr in E1.
  destruct (write_pass_last _ _ _ _ _ _ _ _ E1 Hn) as (seg & Hseg & Hget).
  exists seg. split; [assumption|].
  now rewrite (write_pass_untouched _ _ _ _ _ H Hf).
Qed.

(** X19.  [get_obj_from_masks] carries the instances of a segment whose
    masks are not entirely empty, one object per sub-mask and under the
    instance's own object id; it raises [ValueError] when such a mask does
    not have exactly one channel ([np.squeeze(.., axis=0)]). *)
Theorem get_obj_from_masks_cases (seg : dict SegInfo) :
  get_obj_from_masks seg
  = (if forallb (fun kv => carriable (snd kv)) seg then Ok (carried_objs seg)
     else Raise ValueError)
  /\ Forall (fun o => exists info, In (obj_id o, info) seg
                                   /\ sum3 (mask info) <> 0)
            (carried_objs seg).
Proof.
  split.
  - induction seg as [|[oid info] seg IH]; simpl; [reflexivity|].
    unfold carriable at 1. simpl. unfold carried_objs in *. simpl.
    destruct (sum3 (mask info) =? 0) eqn:Hs; simpl; [exact IH|].
    unfold components_of.
    destruct (mask info) as [|c [|c' m]]; simpl; try reflexivity.
    rewrite IH. now destruct (forallb _ seg).
  - unfold carried_objs. apply List.Forall_forall. intros o Ho.
    apply in_flat_map in Ho as ([oid info] & Hin & Ho). simpl in Ho.
    destruct (Z.eqb_spec (sum3 (mask info)) 0) as [|Hne]; [destruct Ho|].
    apply in_map_iff in Ho as (sub & <- & _). simpl.
    now exists info.
Qed.

End Seeding.

(** ** Runs over videos *)

Section VideoRuns.
Context {U : Utils} {M : Sam2}.
Implicit Types (COCO_INFO : Coco) (frames : list Frame) (st : orch_state).

Lemma clip_turn_log frames ptype variable_cats st e st' :
  clip_turn frames ptype variable_cats st e = Ok st' ->
  exists added, PROMPT_INFO st' = PROMPT_INFO st ++ added.
Proof.
  destruct e as [ps r|last]; simpl; [|discriminate].
  destruct (process_video_clip frames _ r) as [segs|]; [|discriminate]. simpl.
  destruct variable_cats.
  - destruct (subscript _ _) as [seg|]; [|discriminate]. simpl.
    destruct (get_obj_from_masks seg) as [objs|]; [|discriminate]. simpl.
    destruct (index frames 0) as [f0|]; [|discriminate]. simpl.
    destruct (index frames (end_idx r)) as [fe|]; [|discriminate]. simpl.
    intros [= <-]. simpl. eauto.
  - intros [= <-]. simpl. eauto.
Qed.

Lemma run_clips_log frames ptype variable_cats plan st st' :
  run_clips frames ptype variable_cats plan st = Ok st' ->
  exists added, PROMPT_INFO st' = PROMPT_INFO st ++ added.
Proof.
  revert st. induction plan as [|e plan IH]; intros st; simpl.
  - intros [= <-]. exists []. now rewrite app_nil_r.
  - destruct (clip_turn frames ptype variable_cats st e) as [st1|] eqn:E;
      [|discriminate]. simpl.
    intros H. apply clip_turn_log in E as (a1 & E1).
    apply IH in H as (a2 & E2). exists (a1 ++ a2).
    now rewrite E2, E1, app_assoc.
Qed.

Lemma run_clips_fixed_log frames ptype
    (l : list (list PromptInfo * ClipRange)) st st' :
  run_clips frames ptype false (map (fun pr => Clip (fst pr) (snd pr)) l) st
  = Ok st' ->
  PROMPT_INFO st' = PROMPT_INFO st ++ flat_map fst l.
Proof.
  revert st. induction l as [|[ps r] l IH]; intros st; simpl.
  - intros [= <-]. now rewrite app_nil_r.
  - destruct (process_video_clip frames ps r) as [segs|]; [|discriminate].
    simpl. intros H. rewrite (IH _ H). simpl. now rewrite app_assoc.
Qed.

(** X20.  A fixed-length run only appends to the global prompt log: on
    success the log is the log it started from followed by the prompt
    batches of the yielded clips, in clip order, and the counter that is
    left is the planner's. *)
Theorem fixed_run_extends_log COCO_INFO frames ptype clip_length log vs log' count :
  process_singel_video COCO_INFO frames ptype clip_length false log
  = Ok (vs, log', count) ->
  exists evs,
    get_clip_prompts COCO_INFO frames ptype clip_length 0 = Ok (evs, count)
    /\ log' = log ++ flat_map fst (yielded evs).
Proof.
  unfold process_singel_video.
  destruct (get_clip_prompts COCO_INFO frames ptype clip_length 0)
    as [[evs c]|]; [|discriminate]. simpl.
  destruct (run_clips _ _ _ _ _) as [st|] eqn:Hrun; [|discriminate]. simpl.
  intros [= <- <- <-]. exists evs. split; [reflexivity|].
  unfold entries in Hrun. now apply run_clips_fixed_log in Hrun.
Qed.

(** X21.  Under the predictor's contract on frame indices, every frame of
    a fixed-length run's result lies inside the video and inside the range
    of a clip that the planner yielded. *)
Theorem fixed_run_frames_inside COCO_INFO frames ptype clip_length log vs log'
    count k :
  predictor_in_range ->
  process_singel_video COCO_INFO frames ptype clip_length false log
  = Ok (vs, log', count) ->
  In k (keys vs) ->
  0 <= k <= Z.of_nat (length frames) - 1
  /\ exists evs ps r,
       get_clip_prompts COCO_INFO frames ptype clip_length 0 = Ok (evs, count)
       /\ In (ps, r) (yielded evs) /\ covers r k.
Proof.
  intros Hp. unfold process_singel_video.
  destruct (get_clip_prompts COCO_INFO frames ptype clip_length 0)
    as [[evs c]|] eqn:Hg; [|discriminate]. simpl.
  destruct (run_clips _ _ _ _ _) as [st|] eqn:Hrun; [|discriminate]. simpl.
  intros [= <- _ <-] Hk.
  unfold get_clip_prompts in Hg.
  destruct (clip_ranges _ _) as [rs|] eqn:Hrs; [|discriminate]. simpl in Hg.
  injection Hg as Hg.
  assert (evs = fst (plan_clips COCO_INFO frames ptype rs 0)) as Hevs
      by now rewrite Hg.
  assert (Hinside : forall ps r, In (Clip ps r) (entries evs) ->
                                 range_inside (Z.of_nat (length frames)) r).
  { intros ps r Hin. apply entries_In in Hin.
    assert (In r (map snd (yielded evs))) as Hr
        by (apply in_map_iff; now exists (ps, r)).
    rewrite Hevs, plan_clips_yielded in Hr. apply filter_In in Hr as [Hr _].
    pose proof (clip_ranges_bounds _ _ _ _ Hrs ltac:(lia) Hr).
    unfold range_inside. lia. }
  destruct (run_clips_keys _ _ _ _ _ _ Hp Hinside Hrun Hk)
    as [[]|(ps & r & Hin & Hc)].
  pose proof (Hinside ps r Hin) as (H0 & H1 & H2). unfold covers in Hc.
  split; [lia|]. exists evs, ps, r.
  split; [reflexivity|]. split; [now apply entries_In | exact Hc].
Qed.

(** X22.  [process_all_videos] gives every video of [VIDEO_ID_SET] an entry
    in the result, keeps the entries of other videos, and only appends to
    the prompt log. *)
Theorem process_all_videos_entries COCO_INFO VIDEO_ID_SET ptype clip_length
    variable_cats (all all' : dict VideoSegment) log log' :
  process_all_videos COCO_INFO VIDEO_ID_SET ptype clip_length variable_cats
    all log = Ok (all', log') ->
  (forall vid, In vid (keys all') <-> In vid (keys all) \/ In vid VIDEO_ID_SET)
  /\ exists added, log' = log ++ added.
Proof.
  revert all log. induction VIDEO_ID_SET as [|v vids IH]; intros all log; simpl.
  - intros [= <- <-]. split; [tauto | exists []; now rewrite app_nil_r].
  - destruct (process_singel_video _ _ _ _ _ _) as [[[vs lg] c]|] eqn:E;
      [|discriminate]. simpl.
    intros H. apply IH in H as [Hkeys (a2 & ->)]. split.
    + intros vid. rewrite Hkeys, keys_dict_set. intuition congruence.
    + unfold process_singel_video in E.
      destruct (if variable_cats then _ else _) as [gen|]; [|discriminate].
      simpl in E.
      destruct (run_clips _ _ _ _ _) as [st|] eqn:Hrun; [|discriminate].
      simpl in E. injection E as _ <- _.
      apply run_clips_log in Hrun as (a1 & ->). simpl.
      exists (a1 ++ a2). now rewrite app_assoc.
Qed.

End VideoRuns.

(** ** Output assembly *)

Section Assembly.
Context {U : Utils} {M : Sam2}.
Implicit Types (COCO_INFO : Coco) (vs : VideoSegment) (sc : option Score).

Lemma reassemble_frame_present n_cat vs (frame : Frame) sc :
  (is_det_keyframe frame = true ->
   exists segment, dict_get (order_in_video frame) vs = Some segment
                   /\ same_shape segment) ->
  exists r, reassemble_frame n_cat vs frame sc = Ok r.
Proof.
  intros H. destruct (reassemble_frame n_cat vs frame sc) as [r|e] eqn:E;
    [now exists r|].
  exfalso.
  apply reassemble_frame_exn in E
    as [(_ & Hk & Hg)|(_ & Hk & segment & Hg & Hm)].
  - destruct (H Hk) as (segment & Hs & _). congruence.
  - destruct (H Hk) as (segment' & Hs & Hshape).
    assert (segment' = segment) as -> by congruence.
    destruct (same_shape_merges n_cat segment sc Hshape) as (r & Hr).
    congruence.
Qed.

Lemma reassemble_frames_present n_cat vs (frames : list Frame) sc :
  (forall f, In f frames -> is_det_keyframe f = true ->
             exists segment, dict_get (order_in_video f) vs = Some segment
                             /\ same_shape segment) ->
  exists r, reassemble_frames n_cat vs frames sc = Ok r.
Proof.
  revert sc. induction frames as [|f frames IH]; intros sc H; simpl.
  - eauto.
  - destruct (reassemble_frame_present n_cat vs f sc) as (r & ->);
      [apply H; now left|].
    simpl. destruct (IH (snd r)) as (r' & ->);
      [intros g Hg; apply H; now right|].
    simpl. eauto.
Qed.

(** Once the videos before it are assembled, a video without an entry
    fails on the subscript of [all_video_segments]. *)
Lemma reassemble_videos_prefix COCO_INFO (all : dict VideoSegment) before vid
    after sc r :
  reassemble_videos COCO_INFO all before sc = Ok r ->
  dict_get vid all = None ->
  reassemble_videos COCO_INFO all (before ++ vid :: after) sc = Raise KeyError.
Proof.
  intros Hb Hnone. revert sc r Hb.
  induction before as [|v before IH]; intros sc r; simpl.
  - intros _. unfold subscript. now rewrite Hnone.
  - destruct (subscript all v) as [vs|]; [|discriminate]. simpl.
    destruct (reassemble_frames _ vs _ sc) as [rf|]; [|discriminate]. simpl.
    destruct (reassemble_videos COCO_INFO all before (snd rf)) as [more|] eqn:E;
      [|discriminate].
    intros _. now rewrite (IH _ _ E).
Qed.

(** X23.  A video on the save list that has no entry in
    [all_video_segments] keeps the output assembly from returning.  When
    the videos listed before it are assembled, the exception is the
    [KeyError] of subscripting [all_video_segments] at that video; in
    general it is a [KeyError] or the [ValueError] of an earlier video's
    masks that cannot be combined, which segments of uniform shapes
    exclude. *)
Theorem unprocessed_video_raises COCO_INFO VIDEO_ID_SET
    (all : dict VideoSegment) save_video_list vid :
  In vid (match save_video_list with Some l => l | None => VIDEO_ID_SET end) ->
  dict_get vid all = None ->
  (forall before after r,
      match save_video_list with Some l => l | None => VIDEO_ID_SET end
      = before ++ vid :: after ->
      reassemble_videos COCO_INFO all before None = Ok r ->
      save_as_coco_format COCO_INFO VIDEO_ID_SET all save_video_list
      = Raise KeyError)
  /\ (exists e,
        save_as_coco_format COCO_INFO VIDEO_ID_SET all save_video_list = Raise e
        /\ (e = KeyError \/ e = ValueError))
  /\ (Forall (fun kv => uniform_shapes (snd kv)) all ->
      save_as_coco_format COCO_INFO VIDEO_ID_SET all save_video_list
      = Raise KeyError).
Proof.
  intros Hin Hnone. unfold save_as_coco_format. split.
  - intros before after r -> Hb. eapply reassemble_videos_prefix; eassumption.
  - destruct (reassemble_videos_stops COCO_INFO all _ None vid Hin) as (e & He);
      [now left|].
    rewrite He. split.
    + exists e. split; [reflexivity|]. eapply reassemble_videos_exn, He.
    + intros Hu. f_equal. eapply reassemble_videos_uniform; eassumption.
Qed.

(** X24.  The output assembly succeeds when every video on the save list
    has an entry in [all_video_segments] that holds, for each of the video's
    keyframes, a segment whose masks have one shape; non-keyframes need
    none. *)
Theorem complete_segments_assemble COCO_INFO VIDEO_ID_SET
    (all : dict VideoSegment) save_video_list :
  (forall vid,
      In vid (match save_video_list with Some l => l | None => VIDEO_ID_SET end) ->
      exists vs, dict_get vid all = Some vs
                 /\ forall f, keyframe_of COCO_INFO vid f ->
                      exists segment,
                        dict_get (order_in_video f) vs = Some segment
                        /\ same_shape segment) ->
  exists recs,
    save_as_coco_format COCO_INFO VIDEO_ID_SET all save_video_list = Ok recs.
Proof.
  unfold save_as_coco_format.
  generalize (match save_video_list with Some l => l | None => VIDEO_ID_SET end)
    as videos.
  intros videos. generalize (@None Score).
  induction videos as [|v videos IH]; intros sc H; simpl; [eauto|].
  destruct (H v (or_introl eq_refl)) as (vs & Hv & Hk).
  unfold subscript. rewrite Hv. simpl.
  destruct (reassemble_frames_present (num_cat COCO_INFO) vs
              (sort_dicts_by_field (get_dicts_by_field_value (imgs COCO_INFO) v))
              sc) as (r & ->).
  { intros f Hf Hkf. apply Hk.
    apply (proj1 (sort_dicts_by_field_In _ _)) in Hf.
    unfold get_dicts_by_field_value in Hf.
    apply filter_In in Hf as [Hf Hvid]. apply Z.eqb_eq in Hvid.
    now repeat split. }
  simpl. destruct (IH (snd r)) as (recs & ->);
    [intros vid Hvid; apply H; now right|].
  simpl. eauto.
Qed.

End Assembly.

Section Records.
Context {U : Utils} {M : Sam2}.
Implicit Types (COCO_INFO : Coco) (vs : VideoSegment) (sc : option Score).

Lemma emit_fields (frame : Frame) (mm : dict mask2) sc recs :
  emit frame mm sc = Ok recs ->
  Forall (fun r => a_image_id r = id frame /\ a_iscrowd r = 0
                   /\ In (a_category_id r) (keys mm)) recs.
Proof.
  revert recs. induction mm as [|[key m] mm IH]; intros recs; simpl.
  - intros [= <-]. constructor.
  - destruct (sum2 m =? 0).
    + intros H. eapply List.Forall_impl; [|apply IH, H].
      simpl. intros r (H1 & H2 & H3). auto.
    + destruct sc as [s|]; [|discriminate].
      destruct (emit frame mm (Some s)) as [more|] eqn:E; [|discriminate].
      simpl. intros [= <-]. constructor; [simpl; auto|].
      eapply List.Forall_impl; [|apply IH; reflexivity].
      simpl. intros r (H1 & H2 & H3). auto.
Qed.

Lemma reassemble_frame_fields n_cat vs (frame : Frame) sc recs sc' :
  0 <= n_cat ->
  reassemble_frame n_cat vs frame sc = Ok (recs, sc') ->
  Forall (fun r => a_image_id r = id frame /\ a_iscrowd r = 0
                   /\ 0 <= a_category_id r <= n_cat
                   /\ is_det_keyframe frame = true) recs.
Proof.
  intros Hn. unfold reassemble_frame.
  destruct (is_det_keyframe frame); simpl; [|intros [= <- _]; constructor].
  destruct (subscript vs (order_in_video frame)) as [seg|]; [|discriminate].
  simpl.
  destruct (merge_masks n_cat seg sc) as [[mm s']|] eqn:Hm; [|discriminate].
  simpl.
  destruct (emit frame mm s') as [rs|] eqn:E; [|discriminate]. simpl.
  intros [= <- _].
  eapply List.Forall_impl; [|apply (emit_fields _ _ _ _ E)].
  simpl. intros r (H1 & H2 & H3).
  apply (merge_masks_keys _ _ _ _ _ _ Hm) in H3 as (key & _ & H3).
  unfold decode in H3.
  pose proof (Z.mod_pos_bound key (n_cat + 1) ltac:(lia)).
  split; [exact H1|]. split; [exact H2|]. split; [lia | reflexivity].
Qed.

Lemma reassemble_frames_fields n_cat vs (frames : list Frame) sc recs sc' :
  0 <= n_cat ->
  reassemble_frames n_cat vs frames sc = Ok (recs, sc') ->
  Forall (fun r => a_iscrowd r = 0 /\ 0 <= a_category_id r <= n_cat
                   /\ exists f, In f frames /\ is_det_keyframe f = true
                                /\ a_image_id r = id f) recs.
Proof.
  intros Hn. revert sc recs sc'.
  induction frames as [|f frames IH]; intros sc recs sc'; simpl.
  - intros [= <- _]. constructor.
  - destruct (reassemble_frame n_cat vs f sc) as [[r1 s1]|] eqn:E1;
      [|discriminate]. simpl.
    destruct (reassemble_frames n_cat vs frames s1) as [[r2 s2]|] eqn:E2;
      [|discriminate]. simpl.
    intros [= <- _]. apply Forall_app. split.
    + eapply List.Forall_impl;
        [|apply (reassemble_frame_fields _ _ _ _ _ _ Hn E1)].
      simpl. intros r (H1 & H2 & H3 & H4).
      split; [exact H2|]. split; [exact H3|]. exists f. auto.
    + eapply List.Forall_impl; [|apply (IH _ _ _ E2)].
      simpl. intros r (H1 & H2 & g & Hg & Hk & Hi).
      split; [exact H1|]. split; [exact H2|]. exists g. auto.
Qed.

(** X25.  Every record of the assembled output has [iscrowd = 0], a
    category id in [0 .. num_categories], which is what an object id can
    decode to, and the image id of a keyframe of a video on the save list;
    frames that are not keyframes get no record. *)
Theorem output_records_well_formed COCO_INFO VIDEO_ID_SET
    (all : dict VideoSegment) save_video_list recs :
  save_as_coco_format COCO_INFO VIDEO_ID_SET all save_video_list = Ok recs ->
  Forall (well_formed_record COCO_INFO
            (match save_video_list with Some l => l | None => VIDEO_ID_SET end))
         recs.
Proof.
  unfold save_as_coco_format.
  generalize (match save_video_list with Some l => l | None => VIDEO_ID_SET end)
    as videos.
  intros videos. generalize (@None Score). revert recs.
  assert (0 <= num_cat COCO_INFO) as Hn by (unfold num_cat; lia).
  induction videos as [|v videos IH]; intros recs sc; simpl.
  - intros [= <-]. constructor.
  - destruct (subscript all v) as [vs|]; [|discriminate]. simpl.
    destruct (reassemble_frames _ vs _ sc) as [[r1 s1]|] eqn:E1; [|discriminate].
    simpl.
    destruct (reassemble_videos COCO_INFO all videos s1) as [r2|] eqn:E2;
      [|discriminate]. simpl.
    intros [= <-]. apply Forall_app. split.
    + eapply List.Forall_impl;
        [|apply (reassemble_frames_fields _ _ _ _ _ _ Hn E1)].
      simpl. intros r (H1 & H2 & f & Hf & Hk & Hi).
      apply (proj1 (sort_dicts_by_field_In _ _)) in Hf.
      unfold get_dicts_by_field_value in Hf.
      apply filter_In in Hf as [Hf Hvid]. apply Z.eqb_eq in Hvid.
      split; [exact H1|]. split; [exact H2|].
      exists v, f. unfold keyframe_of. split; [now left | auto].
    + eapply List.Forall_impl; [|apply (IH _ _ E2)].
      simpl. intros r (H1 & H2 & vid & f & Hv & Hk & Hi).
      split; [exact H1|]. split; [exact H2|].
      exists vid, f. split; [now right | auto].
Qed.

(** X26.  For a keyframe with a segment, the reassembler writes one record
    for each category whose instance masks have a non-empty boolean OR, and
    no other record; the record holds the RLE of that OR. *)
Theorem frame_records_are_category_unions n_cat vs (frame : Frame) sc segment
    recs sc' :
  is_det_keyframe frame = true ->
  dict_get (order_in_video frame) vs = Some segment ->
  reassemble_frame n_cat vs frame sc = Ok (recs, sc') ->
  List.NoDup (map a_category_id recs)
  /\ (forall c, In c (map a_category_id recs) <->
                exists m, union_masks (instance_masks n_cat c segment) = Some (Ok m)
                          /\ sum2 m <> 0)
  /\ (forall r, In r recs ->
        exists m, union_masks (instance_masks n_cat (a_category_id r) segment)
                  = Some (Ok m)
                  /\ a_segmentation r = maskUtils_encode m
                  /\ a_bbox r = mask_to_bbox m).
Proof.
  intros Hk Hg H.
  destruct (reassemble_frame_records _ _ _ _ _ _ _ Hk Hg H) as (H1 & H2 & H3).
  split; [exact H1|]. split; [exact H2|].
  intros r Hr. now destruct (H3 r Hr) as (_ & Hm & _).
Qed.

End Records.

(** ** The further properties on explicit inputs *)

Section MoreRuns.
Import Stub Inputs MoreInputs.

Lemma frames6_sorted :
  StronglySorted (fun a b => order_in_video a <= order_in_video b) frames6.
Proof.
  unfold frames6. simpl.
  repeat (constructor; [|repeat (constructor; [simpl; lia|]); constructor]).
  constructor.
Qed.

(** Video 7, whole video as one range: the keyframe at ordinal 1 is
    selected, before the keyframe at 4, which has no annotation anyway. *)
Lemma prompt_frame_smallest_when_sorted_witness :
  qualifies coco6 {| start_idx := 0; end_idx := 5 |} (frame 101 7 1 true) = true
  /\ forall g, In g frames6 ->
               qualifies coco6 {| start_idx := 0; end_idx := 5 |} g = true ->
               1 <= order_in_video g.
Proof.
  apply (prompt_frame_smallest_when_sorted coco6 frames6
           {| start_idx := 0; end_idx := 5 |} (frame 101 7 1 true)).
  - exact frames6_sorted.
  - reflexivity.
Defined.

Lemma sort_dicts_by_field_keeps_sorted_witness :
  sort_dicts_by_field frames6 = frames6.
Proof.
  apply (sort_dicts_by_field_keeps_sorted frames6). exact frames6_sorted.
Defined.

Lemma obj_ids_grow_witness :
  StronglySorted Z.lt (map obj_id (all_objs (yielded evs6)))
  /\ 2 = Z.of_nat (length (all_objs (yielded evs6))).
Proof.
  apply (obj_ids_grow coco6 frames6 "points" (Some 3) evs6 2).
  - unfold cats_within, num_cat. simpl.
    repeat (constructor; [simpl; lia|]). constructor.
  - vm_compute. reflexivity.
Defined.

(** Seven frames in clips of three: the last range is [6 .. 6]. *)
Lemma clip_range_shape_witness :
  0 <= 6 <= 6 /\ 6 <= 7 - 1 /\ 6 - 6 + 1 <= 3 /\ 6 mod 3 = 0.
Proof.
  apply (clip_range_shape 7 3
           [{| start_idx := 0; end_idx := 2 |};
            {| start_idx := 3; end_idx := 5 |};
            {| start_idx := 6; end_idx := 6 |}]
           {| start_idx := 6; end_idx := 6 |}).
  - lia.
  - reflexivity.
  - simpl. tauto.
Defined.

Lemma whole_video_clip_witness :
  exists evs count',
    get_clip_prompts coco6 frames6 "points" None 0 = Ok (evs, count')
    /\ yielded_ranges evs ++ warned evs = [{| start_idx := 0; end_idx := 6 - 1 |}].
Proof.
  apply (whole_video_clip coco6 frames6 "points" None 0); simpl; lia.
Defined.

Lemma degenerate_clip_lengths_witness :
  get_clip_prompts coco6 frames6 "points" (Some (-2)) 0 = Ok ([], 0)
  /\ process_singel_video coco6 frames6 "points" (Some (-2)) false log6
     = Ok ([], log6, 0).
Proof.
  destruct (degenerate_clip_lengths coco6 frames6 "points" log6 (-2))
    as (_ & _ & H).
  apply H. lia.
Defined.

Lemma yielded_batch_anchored_witness :
  exists info f,
    fst (hd ([], {| start_idx := 0; end_idx := 0 |}) (yielded evs6)) = [info]
    /\ prompt_type info = "points"%string
    /\ In f frames6
    /\ is_det_keyframe f = true
    /\ has_anns coco6 f = true
    /\ frame_idx info = order_in_video f
    /\ 0 <= frame_idx info <= 2.
Proof.
  apply (yielded_batch_anchored coco6 frames6 "points" (Some 3) 0 evs6 2
           (fst (hd ([], {| start_idx := 0; end_idx := 0 |}) (yielded evs6)))
           {| start_idx := 0; end_idx := 2 |}).
  - vm_compute. reflexivity.
  - simpl. left. reflexivity.
Defined.

Lemma every_range_yielded_or_warned_witness :
  (In {| start_idx := 3; end_idx := 5 |} (yielded_ranges evs6) <->
   In {| start_idx := 3; end_idx := 5 |}
      [{| start_idx := 0; end_idx := 2 |}; {| start_idx := 3; end_idx := 5 |}]
   /\ holds_annotated_keyframe coco6 frames6 {| start_idx := 3; end_idx := 5 |}
      = true)
  /\ (In {| start_idx := 3; end_idx := 5 |} (warned evs6) <->
      In {| start_idx := 3; end_idx := 5 |}
         [{| start_idx := 0; end_idx := 2 |}; {| start_idx := 3; end_idx := 5 |}]
      /\ holds_annotated_keyframe coco6 frames6 {| start_idx := 3; end_idx := 5 |}
         = false)
  /\ (length (yielded_ranges evs6) + length (warned evs6))%nat = 2%nat.
Proof.
  apply (every_range_yielded_or_warned coco6 frames6 "points" (Some 3) 0 evs6 2
           [{| start_idx := 0; end_idx := 2 |}; {| start_idx := 3; end_idx := 5 |}]
           {| start_idx := 3; end_idx := 5 |}).
  - reflexivity.
  - vm_compute. reflexivity.
Defined.

Lemma category_growth_without_keyframe_witness :
  get_prompts_from_categories coco_n frames_n 0
  = Ok ([NoneClip (Z.of_nat (length frames_n) - 1)], 0)
  /\ process_singel_video coco_n frames_n "mask" None true [] = Raise TypeError.
Proof.
  apply (category_growth_without_keyframe coco_n frames_n "mask" None []).
  vm_compute. reflexivity.
Defined.

Lemma category_growth_last_frame_only_witness :
  process_singel_video coco_l frames_l "mask" None true []
  = Ok ([], [], snd (get_each_obj coco_l (frame 602 12 2 true) 1 None 0)).
Proof.
  apply (category_growth_last_frame_only coco_l frames_l "mask" None []
           (frame 602 12 2 true)).
  - vm_compute. reflexivity.
  - reflexivity.
Defined.

Lemma empty_batch_fails_clip_witness :
  process_video_clip frames6 [empty_batch] {| start_idx := 0; end_idx := 2 |}
  = Raise UnboundLocalError.
Proof.
  apply (empty_batch_fails_clip frames6 [empty_batch]
           {| start_idx := 0; end_idx := 2 |} empty_batch).
  - simpl. left. reflexivity.
  - left. reflexivity.
Defined.

Lemma s3_logits_cover reverse : Forall logits_cover (propagate_in_video s3 reverse).
Proof.
  destruct reverse; simpl; unfold propagate; simpl;
    repeat (constructor; [unfold logits_cover; simpl; lia|]); constructor.
Qed.

Lemma predict_on_video_frames_witness :
  exists vs,
    predict_on_video s3 3 = Ok vs
    /\ forall k, In k (keys vs) <->
                 exists o, In o (propagate_in_video s3 true
                                 ++ propagate_in_video s3 false)
                           /\ k = out_frame o + 3.
Proof.
  apply (predict_on_video_frames s3 3); apply s3_logits_cover.
Defined.

Lemma write_pass_short_logits_witness :
  write_pass [short_output] 0 [] = Raise IndexError.
Proof.
  apply (write_pass_short_logits [short_output] 0 []).
  constructor. unfold logits_cover. simpl. lia.
Defined.

(** The clip [s3]: the frame before the anchor is produced by the reverse
    pass alone and keeps its score of 40. *)
Lemma reverse_only_frame_kept_witness :
  exists seg,
    frame_segments 0 [5] [([[true; false; true]], 40)] [] = Ok seg
    /\ dict_get (0 + 3) vs3 = Some seg.
Proof.
  apply (reverse_only_frame_kept s3 3 vs3
           [(1, [5], [([[true; false; true]], 40)])] 0 [5]
           [([[true; false; true]], 40)] []).
  - vm_compute. reflexivity.
  - reflexivity.
  - simpl. tauto.
  - simpl. intros [H|[H|[]]]; discriminate H.
Defined.

Lemma fixed_run_extends_log_witness :
  exists evs,
    get_clip_prompts coco6 frames6 "points" (Some 3) 0 = Ok (evs, 2)
    /\ log6 ++ log6 = log6 ++ flat_map fst (yielded evs).
Proof.
  apply (fixed_run_extends_log coco6 frames6 "points" (Some 3) log6 vs6
           (log6 ++ log6) 2).
  vm_compute. reflexivity.
Defined.

Lemma fixed_run_frames_inside_witness :
  0 <= 2 <= Z.of_nat (length frames6) - 1
  /\ exists evs ps r,
       get_clip_prompts coco6 frames6 "points" (Some 3) 0 = Ok (evs, 2)
       /\ In (ps, r) (yielded evs) /\ covers r 2.
Proof.
  apply (fixed_run_frames_inside coco6 frames6 "points" (Some 3) [] vs6 log6 2 2).
  - exact stub_in_range.
  - vm_compute. reflexivity.
  - simpl. tauto.
Defined.

Lemma process_all_videos_entries_witness :
  (forall vid, In vid (keys all6) <-> In vid (keys (@nil (Z * VideoSegment)))
                                      \/ In vid [7])
  /\ exists added, log6 = [] ++ added.
Proof.
  apply (process_all_videos_entries coco6 [7] "points" (Some 3) false [] all6
           [] log6).
  vm_compute. reflexivity.
Defined.

(** Video 7 is assembled from [vs6_full]; video 8, listed after it, has no
    entry. *)
Lemma unprocessed_video_raises_witness :
  reassemble_videos coco6 [(7, vs6_full)] [7] None = Ok recs6_full
  /\ save_as_coco_format coco6 [7] [(7, vs6_full)] (Some [7; 8]) = Raise KeyError
  /\ exists e,
       save_as_coco_format coco6 [7] [(7, vs6_full)] (Some [7; 8]) = Raise e
       /\ (e = KeyError \/ e = ValueError).
Proof.
  destruct (unprocessed_video_raises coco6 [7] [(7, vs6_full)] (Some [7; 8]) 8)
    as (H1 & H2 & _).
  - simpl. tauto.
  - reflexivity.
  - split; [vm_compute; reflexivity|]. split; [|exact H2].
    apply (H1 [7] [] recs6_full); [reflexivity | vm_compute; reflexivity].
Defined.

Lemma complete_segments_assemble_witness :
  exists recs, save_as_coco_format coco6 [7] [(7, vs6_full)] None = Ok recs.
Proof.
  apply (complete_segments_assemble coco6 [7] [(7, vs6_full)] None).
  intros vid [<-|[]]. exists vs6_full. split; [reflexivity|].
  intros f (Hf & _ & _). simpl in Hf.
  repeat (destruct Hf as [<-|Hf];
          [eexists; split; [reflexivity|]; exists 3%nat; repeat constructor|]).
  destruct Hf.
Defined.

Lemma output_records_well_formed_witness :
  Forall (well_formed_record coco6 [7]) recs6_full.
Proof.
  apply (output_records_well_formed coco6 [7] [(7, vs6_full)] None recs6_full).
  vm_compute. reflexivity.
Defined.

Lemma frame_records_are_category_unions_witness :
  exists recs sc',
    reassemble_frame 2 vs_r (frame 300 9 0 true) None = Ok (recs, sc')
    /\ List.NoDup (map a_category_id recs)
    /\ (forall c, In c (map a_category_id recs) <->
                  exists m, union_masks
                              (instance_masks 2 c
                                 [(1, {| mask := [[true; false]]; score := 90 |});
                                  (5, {| mask := [[false; true]]; score := 30 |})])
                            = Some (Ok m) /\ sum2 m <> 0)
    /\ (forall r, In r recs ->
          exists m, union_masks
                      (instance_masks 2 (a_category_id r)
                         [(1, {| mask := [[true; false]]; score := 90 |});
                          (5, {| mask := [[false; true]]; score := 30 |})])
                    = Some (Ok m)
                    /\ a_segmentation r = maskUtils_encode m
                    /\ a_bbox r = mask_to_bbox m).
Proof.
  eexists _, _. split; [vm_compute; reflexivity|].
  eapply (frame_records_are_category_unions 2 vs_r (frame 300 9 0 true) None);
    reflexivity.
Defined.

End MoreRuns.
